(** * Novablick: the Dataset Query Guard and the agent orchestration engine

    A shallow embedding of [validateSQLQuery] and [createQueryDatasetTool]
    (src/lib/ai/tools.ts) and of [streamAgent] (the orchestration engine).

    Strings are JavaScript strings whose UTF-16 code units lie in the
    Latin-1 range; a Rocq [ascii] is read as such a code unit through
    [nat_of_ascii].  On that range the JavaScript primitives used by the
    guard ([trim], [toLowerCase], [includes], [startsWith], [join]) and the
    regular expressions it builds ([\s], [\b], the [i] flag) are written out
    below exactly. *)

From Stdlib Require Import Bool Arith Lia List Ascii String.
From Stdlib Require Import Numbers.DecimalString.
Import ListNotations.
Open Scope string_scope.
Open Scope list_scope.

Module JS.

(** Code unit of a character. *)
Definition code (c : ascii) : nat := nat_of_ascii c.

(** The characters of [\s] (WhiteSpace and LineTerminator) and of
    [String.prototype.trim] in the Latin-1 range: TAB, LF, VT, FF, CR,
    SPACE and NO-BREAK SPACE. *)
Definition is_space (c : ascii) : bool :=
  let n := code c in
  ((Nat.leb 9 n) && (Nat.leb n 13)) || (Nat.eqb n 32) || (Nat.eqb n 160).

(** [\w] without the [u] flag: [A-Za-z0-9_]. *)
Definition is_word_char (c : ascii) : bool :=
  let n := code c in
  ((Nat.leb 48 n) && (Nat.leb n 57)) || ((Nat.leb 65 n) && (Nat.leb n 90))
  || ((Nat.leb 97 n) && (Nat.leb n 122)) || (Nat.eqb n 95).

(** [toLowerCase] on one Latin-1 code unit: A-Z and the Latin-1 capitals
    U+00C0..U+00DE except U+00D7 move up by 32. *)
Definition lower_char (c : ascii) : ascii :=
  let n := code c in
  if ((Nat.leb 65 n) && (Nat.leb n 90)) || ((Nat.leb 192 n) && (Nat.leb n 222) && negb (Nat.eqb n 215))
  then ascii_of_nat (n + 32) else c.

(** ASCII [toUpperCase]; used on the ASCII keywords of the guard. *)
Definition upper_ascii (c : ascii) : ascii :=
  let n := code c in
  if (Nat.leb 97 n) && (Nat.leb n 122) then ascii_of_nat (n - 32) else c.

(** Canonicalize for a non-unicode [i] regular expression: a code unit
    at or above 128 never canonicalizes to an ASCII one, so two characters
    match case-insensitively against an ASCII pattern character exactly
    when their ASCII upper cases agree. *)
Definition ci_eq (c p : ascii) : bool :=
  Ascii.eqb (upper_ascii c) (upper_ascii p).

Fixpoint toLowerCase (s : string) : string :=
  match s with
  | EmptyString => EmptyString
  | String c s' => String (lower_char c) (toLowerCase s')
  end.

Fixpoint toUpperCase (s : string) : string :=
  match s with
  | EmptyString => EmptyString
  | String c s' => String (upper_ascii c) (toUpperCase s')
  end.

Fixpoint trim_start (s : string) : string :=
  match s with
  | String c s' => if is_space c then trim_start s' else s
  | EmptyString => EmptyString
  end.

Definition rev_string (s : string) : string :=
  string_of_list_ascii (rev (list_ascii_of_string s)).

Definition trim (s : string) : string :=
  rev_string (trim_start (rev_string (trim_start s))).

Fixpoint startsWith (s p : string) : bool :=
  match p, s with
  | EmptyString, _ => true
  | String a p', String b s' => Ascii.eqb a b && startsWith s' p'
  | String _ _, EmptyString => false
  end.

Fixpoint includes (s p : string) : bool :=
  startsWith s p ||
  match s with
  | EmptyString => false
  | String _ s' => includes s' p
  end.

(** [Array.prototype.includes] on strings. *)
Definition array_includes (xs : list string) (x : string) : bool :=
  existsb (String.eqb x) xs.

(** [Array.prototype.join]. *)
Fixpoint join (sep : string) (xs : list string) : string :=
  match xs with
  | [] => EmptyString
  | [x] => x
  | x :: xs' => x ++ sep ++ join sep xs'
  end.

(** The double quote character. *)
Definition dq : string := String (ascii_of_nat 34) EmptyString.

(** A lowercase ASCII letter. *)
Definition is_lower (c : ascii) : bool :=
  Nat.leb 97 (code c) && Nat.leb (code c) 122.

Fixpoint all_lower (s : string) : bool :=
  match s with
  | EmptyString => true
  | String c s' => is_lower c && all_lower s'
  end.

(** Decimal rendering of a number in a template literal. *)
Definition nat_to_string (n : nat) : string :=
  NilEmpty.string_of_uint (Nat.to_uint n).

End JS.

Import JS.

Module Guard.

(** ** The keyword test [new RegExp(`\\b${keyword}\\b`, "i").test(query)] *)

(** [\b] between the character before the position (if any) and the
    character at the position (if any). *)
Definition boundary (prev : option ascii) (s : string) : bool :=
  let l := match prev with Some c => is_word_char c | None => false end in
  let r := match s with String c _ => is_word_char c | EmptyString => false end in
  xorb l r.

(** Case-insensitive literal [p] at the start of [s]; returns what
    follows it. *)
Fixpoint prefix_ci (p s : string) : option string :=
  match p, s with
  | EmptyString, _ => Some s
  | String a p', String b s' => if ci_eq b a then prefix_ci p' s' else None
  | String _ _, EmptyString => None
  end.

Definition last_char (p : string) : option ascii :=
  match rev (list_ascii_of_string p) with
  | c :: _ => Some c
  | [] => None
  end.

(** [\bkw\b] matches at the start of [s], [prev] being the character
    before it. *)
Definition kw_at (kw : string) (prev : option ascii) (s : string) : bool :=
  boundary prev s &&
  match prefix_ci kw s with
  | Some rest => boundary (last_char (substring 0 (String.length kw) s)) rest
  | None => false
  end.

(** [RegExp.prototype.test]: some start position matches. *)
Fixpoint kw_search (kw : string) (prev : option ascii) (s : string) : bool :=
  kw_at kw prev s ||
  match s with
  | EmptyString => false
  | String c s' => kw_search kw (Some c) s'
  end.

Definition kw_test (kw query : string) : bool := kw_search kw None query.

(** ** The scope-filter pattern
    [/dataset_id\s*(?:=|in)\s*\(?['"]([a-f0-9-]+)['"]\)?/gi]

    Each quantifier of the pattern is followed by a character it cannot
    consume ([\s*] by [=], [i], [(] or a quote, [\(?] by a quote, the id
    class by a quote), so backtracking never changes the greedy choice and
    a match at a given position is computed deterministically. *)

Fixpoint skip_ws (s : string) : string :=
  match s with
  | String c s' => if is_space c then skip_ws s' else s
  | EmptyString => EmptyString
  end.

Definition is_quote (c : ascii) : bool :=
  Nat.eqb (code c) 39 || Nat.eqb (code c) 34.

(** [[a-f0-9-]] under the [i] flag. *)
Definition is_id_char (c : ascii) : bool :=
  let n := code (upper_ascii c) in
  ((Nat.leb 65 n) && (Nat.leb n 70)) || ((Nat.leb 48 n) && (Nat.leb n 57))
  || Nat.eqb n 45.

(** Greedy [[a-f0-9-]*]: the run taken and what follows. *)
Fixpoint take_id (s : string) : string * string :=
  match s with
  | String c s' =>
      if is_id_char c then let '(r, t) := take_id s' in (String c r, t)
      else (EmptyString, s)
  | EmptyString => (EmptyString, EmptyString)
  end.

Definition opt_char (p : ascii) (s : string) : string :=
  match s with
  | String c s' => if Ascii.eqb c p then s' else s
  | EmptyString => s
  end.

Definition quote (s : string) : option string :=
  match s with
  | String c s' => if is_quote c then Some s' else None
  | EmptyString => None
  end.

(** [(?:=|in)]. *)
Definition eq_or_in (s : string) : option string :=
  match s with
  | String c s' =>
      if Ascii.eqb c "="%char then Some s'
      else prefix_ci "in" s
  | EmptyString => None
  end.

(** A match of the pattern at the start of [s]: the capture group 1 and
    the rest of the string after the match. *)
Definition id_match_at (s : string) : option (string * string) :=
  match prefix_ci "dataset_id" s with
  | None => None
  | Some s1 =>
    match eq_or_in (skip_ws s1) with
    | None => None
    | Some s2 =>
      match quote (opt_char "("%char (skip_ws s2)) with
      | None => None
      | Some s3 =>
        let '(id, s4) := take_id s3 in
        match id with
        | EmptyString => None
        | _ =>
          match quote s4 with
          | None => None
          | Some s5 => Some (id, opt_char ")"%char s5)
          end
        end
      end
    end
  end.

(** [[...query.matchAll(datasetIdPattern)].map(m => m[1])]: scan from
    left to right, resuming after each (non-empty) match. *)
Fixpoint matchAll_ids_fuel (fuel : nat) (s : string) : list string :=
  match fuel with
  | O => []
  | S fuel' =>
    match id_match_at s with
    | Some (id, rest) => id :: matchAll_ids_fuel fuel' rest
    | None =>
      match s with
      | EmptyString => []
      | String _ s' => matchAll_ids_fuel fuel' s'
      end
    end
  end.

(** Every step consumes at least one character, so [length s + 1] steps
    always suffice. *)
Definition matchAll_ids (s : string) : list string :=
  matchAll_ids_fuel (S (String.length s)) s.

(** ** [validateSQLQuery] *)

Record Validation := mkValidation { valid : bool; error : option string }.

Definition dangerousKeywords : list string :=
  ["insert"; "update"; "delete"; "drop"; "truncate"; "alter"; "create";
   "exec"; "execute"; "grant"; "revoke"].

Definition only_select_error : string :=
  "Only SELECT queries are allowed. UPDATE, DELETE, DROP, INSERT, and other operations are forbidden.".

Definition forbidden_error (keyword : string) : string :=
  "Forbidden SQL keyword detected: " ++ toUpperCase keyword
  ++ ". Only SELECT queries are allowed.".

Definition table_error : string :=
  "Query must reference the " ++ dq ++ "dataset_rows" ++ dq ++ " table.".

Definition missing_filter_error (allowedDatasetIds : list string) : string :=
  "Query must filter by dataset_id in the WHERE clause. You can only query these datasets: "
  ++ join ", " allowedDatasetIds.

Definition access_denied_error (referencedId : string) (allowedDatasetIds : list string) : string :=
  "Access denied: Dataset ID " ++ dq ++ referencedId ++ dq
  ++ " is not in the allowed list. Allowed IDs: " ++ join ", " allowedDatasetIds.

Definition invalid (e : string) : Validation := mkValidation false (Some e).

(** [for (const keyword of dangerousKeywords) if (regex.test(query)) return ...] *)
Fixpoint first_keyword (kws : list string) (query : string) : option string :=
  match kws with
  | [] => None
  | kw :: kws' => if kw_test kw query then Some kw else first_keyword kws' query
  end.

(** [for (const match of matches) if (!allowedDatasetIds.includes(id)) return ...] *)
Fixpoint first_denied (ids : list string) (allowedDatasetIds : list string) : option string :=
  match ids with
  | [] => None
  | id :: ids' =>
      if array_includes allowedDatasetIds id then first_denied ids' allowedDatasetIds
      else Some id
  end.

Definition validateSQLQuery (query : string) (allowedDatasetIds : list string) : Validation :=
  let normalizedQuery := toLowerCase (trim query) in
  if negb (startsWith normalizedQuery "select") then invalid only_select_error
  else match first_keyword dangerousKeywords query with
  | Some kw => invalid (forbidden_error kw)
  | None =>
    if negb (includes normalizedQuery "dataset_rows") then invalid table_error
    else
      let matches := matchAll_ids query in
      match matches with
      | [] => invalid (missing_filter_error allowedDatasetIds)
      | _ =>
        match first_denied matches allowedDatasetIds with
        | Some referencedId => invalid (access_denied_error referencedId allowedDatasetIds)
        | None => mkValidation true None
        end
      end
  end.

(** ** Whole-word occurrences, stated without the regular expression *)

Definition word_opt (o : option ascii) : bool :=
  match o with Some c => is_word_char c | None => false end.

Definition word_first (s : string) : bool :=
  match s with String c _ => is_word_char c | EmptyString => false end.

(** [kw] occurs in [query] in some letter case, neither preceded nor
    followed by a character of [[A-Za-z0-9_]]. *)
Definition whole_word (kw query : string) : Prop :=
  exists pre w post,
    query = (pre ++ w ++ post)%string /\ toLowerCase w = kw /\
    word_opt (last_char pre) = false /\ word_first post = false.

End Guard.

Module QueryTool.
Import Guard.

Section Tool.

(** The rows a database call returns; opaque to the tool. *)
Variable Row : Type.

(** Outcome of [await db.execute(sql.raw(query))]: rows, or a thrown value
    ([Some msg] for an [Error] with that message). *)
Inductive DbOutcome :=
| DbRows (rows : list Row)
| DbThrows (msg : option string).

(** The payload [execute] returns. *)
Inductive Payload :=
| Failure (error : option string)
| Success (rowCount : nat) (rows : list Row) (message : string).

(** The statement that reaches the store when the guard approves. *)
Definition capped (sqlQuery : string) : string :=
  if includes (toLowerCase sqlQuery) "limit" then sqlQuery
  else sqlQuery ++ " LIMIT 1000".

(** [execute] of [createQueryDatasetTool(allowedDatasetIds)], given the
    store [db]; returns the statements sent to the store (in order) with
    the payload. *)
Definition execute (db : string -> DbOutcome) (allowedDatasetIds : list string)
    (sqlQuery : string) : list string * Payload :=
  let validation := validateSQLQuery sqlQuery allowedDatasetIds in
  if negb (valid validation) then ([], Failure (error validation))
  else
    let query := capped sqlQuery in
    match db query with
    | DbRows rows =>
        ([query], Success (List.length rows) rows
           ("Successfully executed SQL query and returned " ++ nat_to_string (List.length rows) ++ " rows."))
    | DbThrows m =>
        ([query], Failure (Some match m with Some e => e | None => "Unknown error" end))
    end.

End Tool.

End QueryTool.

Module Agent.

(** ** Data model of [streamAgent] *)

(** [z.enum([...])] of the Step schema, and the key order of
    [availableTools]. *)
Inductive ToolName :=
| runCode | queryDataset | displayBarChart | displayLineChart | displayPieChart.

Definition ToolName_eqb (a b : ToolName) : bool :=
  match a, b with
  | runCode, runCode | queryDataset, queryDataset
  | displayBarChart, displayBarChart | displayLineChart, displayLineChart
  | displayPieChart, displayPieChart => true
  | _, _ => false
  end.

Definition availableTools : list ToolName :=
  [runCode; queryDataset; displayBarChart; displayLineChart; displayPieChart].

Record Step := mkStep {
  id : string;
  task : string;
  instructions : string;
  context : string;
  tools : list ToolName }.

Inductive Role := user | assistant | tool | system.

Definition is_assistant (r : Role) : bool :=
  match r with assistant => true | _ => false end.

(** A model message; [content] is its content as a template literal
    renders it. *)
Record ModelMessage := mkMsg { role : Role; content : string }.

Inductive ToolChoice := auto | required.

(** A successful tool result of one round ([step.toolResults]). *)
Record ToolResult := mkToolResult { toolName : ToolName; output : string }.

(** One round (one "step" of [generateText]): the number of client tool
    calls the model made, their successful results, the number of tool
    executions that failed, and the round's response messages. *)
Record RoundResult := mkRound {
  toolCalls : nat;
  toolResults : list ToolResult;
  toolErrors : nat;
  messages : list ModelMessage }.

(** The black-box capabilities the engine uses: the planning decision
    ([generateObject]), the plan stream ([streamObject] with
    [output: "array"]), one model round of [generateText] (given the request
    messages, the tools, the tool choice in force and the rounds so far;
    the tools' own execution, chart emission included, happens inside the
    round), and [uuidv4] (the n-th call). *)
Record LLM := mkLLM {
  decide : list ModelMessage -> bool * string;
  plan : list ModelMessage -> list Step;
  round : list ModelMessage -> list ToolName -> ToolChoice -> list RoundResult -> RoundResult;
  uuid : nat -> string }.

Definition REASONING_MODEL : string := "gpt-5-nano".
Definition NON_REASONING_MODEL : string := "gpt-4.1".

(** The ordered sequence of everything the invocation does that is
    observable: writer events, and the model calls whose output is merged
    into the writer ([DirectResponse] and [Synthesis] are the two
    [streamText] response paths; [StepRound] is one round of a step's
    [generateText]). System prompts are omitted. *)
Inductive Event :=
| ReasoningStart (rid : string)
| DecisionCall (msgs : list ModelMessage)
| ReasoningDelta (rid : string) (delta : string)
| ReasoningEnd (rid : string)
| PlanCall (msgs : list ModelMessage)
| PlanUpdate (planId : string) (steps : list Step)
| StepStatus (partId : string) (stepId : string) (planId : string) (completed : bool)
| StepRound (msgs : list ModelMessage) (tools : list ToolName) (choice : ToolChoice) (result : RoundResult)
| DirectResponse (model : string) (msgs : list ModelMessage) (tools : list ToolName)
| Synthesis (model : string) (msgs : list ModelMessage).

(** ** A state monad over the uuid counter and the event trace *)

Record St := mkSt { next_uuid : nat; events : list Event }.

Definition M (A : Type) : Type := St -> A * St.

Definition ret {A} (a : A) : M A := fun st => (a, st).

Definition bind {A B} (m : M A) (k : A -> M B) : M B :=
  fun st => let '(a, st') := m st in k a st'.

Notation "x <- m ;; k" := (bind m (fun x => k))
  (at level 61, m at next level, right associativity).
Notation "m ;;; k" := (bind m (fun _ => k))
  (at level 61, right associativity).

(** [writer.write(e)] *)
Definition write (e : Event) : M unit :=
  fun st => (tt, mkSt (next_uuid st) (events st ++ [e])).

(** [uuidv4()] *)
Definition uuidv4 (llm : LLM) : M string :=
  fun st => (uuid llm (next_uuid st), mkSt (S (next_uuid st)) (events st)).

(** ** One step of the plan *)

Definition nl : string := String (ascii_of_nat 10) EmptyString.

(** The user message of a step's [generateText] call. *)
Definition step_request (step : Step) (executionMessages : list ModelMessage) : list ModelMessage :=
  [mkMsg user
    ("Context from the main agent: " ++ context step ++ nl
     ++ "        Context from previous steps: "
     ++ join nl (map content executionMessages) ++ nl
     ++ "        Execute this task immediately: " ++ task step ++ "." ++ nl
     ++ "        Detailed instructions: " ++ instructions step)].

(** [step.tools.reduce(...)]: names found in [availableTools] become keys
    of a fresh object, in first-insertion order. *)
Definition resolve_tools (names : list ToolName) : list ToolName :=
  fold_left
    (fun acc toolName =>
       if existsb (ToolName_eqb toolName) availableTools then
         if existsb (ToolName_eqb toolName) acc then acc else acc ++ [toolName]
       else acc)
    names [].

Definition is_visualization (t : ToolName) : bool :=
  match t with
  | displayBarChart | displayLineChart | displayPieChart => true
  | _ => false
  end.

(** The [toolChoice] argument of a step's [generateText] call. *)
Definition initial_tool_choice (step : Step) : ToolChoice :=
  match tools step with
  | [t] => if is_visualization t then required else auto
  | _ => auto
  end.

Definition chart_success : string := "Chart displayed successfully.".

(** The [prepareStep] callback: [Some auto] when a previous round has a
    successful chart result, [undefined] otherwise. *)
Definition prepareStep (steps : list RoundResult) : option ToolChoice :=
  if existsb (fun st =>
       existsb (fun result =>
         is_visualization (toolName result) && String.eqb (output result) chart_success)
       (toolResults st)) steps
  then Some auto else None.

(** [generateText] with [stopWhen: stepCountIs(3)]: before each round the
    [prepareStep] result overrides the call's [toolChoice] when it is
    defined ([prepareStepResult?.toolChoice ?? toolChoice]); the loop goes on
    while the round made client tool calls, every call has an output
    (result or error), and fewer than 3 rounds were made. [remaining] is
    [3 - steps.length]. Returns the rounds in order, each with the tool
    choice it ran under. *)
Fixpoint generate_rounds (llm : LLM) (msgs : list ModelMessage) (ts : list ToolName)
    (toolChoice : ToolChoice) (remaining : nat) (steps : list RoundResult)
    : list (ToolChoice * RoundResult) :=
  match remaining with
  | O => []
  | S remaining' =>
    let stepToolChoice :=
      match prepareStep steps with Some c => c | None => toolChoice end in
    let r := round llm msgs ts stepToolChoice steps in
    let continue :=
      negb (Nat.eqb (toolCalls r) 0)
      && Nat.eqb (List.length (toolResults r) + toolErrors r) (toolCalls r) in
    (stepToolChoice, r) ::
      (if continue then generate_rounds llm msgs ts toolChoice remaining' (steps ++ [r])
       else [])
  end.

Definition generateText (llm : LLM) (msgs : list ModelMessage) (ts : list ToolName)
    (toolChoice : ToolChoice) : list (ToolChoice * RoundResult) :=
  generate_rounds llm msgs ts toolChoice 3 [].

(** [result.response.messages] *)
Definition response_messages (rounds : list (ToolChoice * RoundResult)) : list ModelMessage :=
  List.concat (map (fun cr => messages (snd cr)) rounds).

(** [messages.findLast((message) => message.role === "assistant")] *)
Definition findLast_assistant (ms : list ModelMessage) : option ModelMessage :=
  find (fun m => is_assistant (role m)) (rev ms).

(** The rounds of one step, in the order the invocation runs them. *)
Definition step_rounds (llm : LLM) (step : Step) (executionMessages : list ModelMessage)
    : list (ToolChoice * RoundResult) :=
  generateText llm (step_request step executionMessages)
    (resolve_tools (tools step)) (initial_tool_choice step).

Fixpoint emit_rounds (msgs : list ModelMessage) (ts : list ToolName)
    (rounds : list (ToolChoice * RoundResult)) : M unit :=
  match rounds with
  | [] => ret tt
  | (c, r) :: rest => write (StepRound msgs ts c r) ;;; emit_rounds msgs ts rest
  end.

(** The [for (const step of steps)] loop of Step 3: returns the final
    [modelMessages] and [executionMessages]. *)
Fixpoint execute_steps (llm : LLM) (planId : string) (steps : list Step)
    (modelMessages executionMessages : list ModelMessage)
    : M (list ModelMessage * list ModelMessage) :=
  match steps with
  | [] => ret (modelMessages, executionMessages)
  | step :: rest =>
    stepId <- uuidv4 llm ;;
    write (StepStatus stepId (id step) planId false) ;;;
    let msgs := step_request step executionMessages in
    let ts := resolve_tools (tools step) in
    let rounds := generateText llm msgs ts (initial_tool_choice step) in
    emit_rounds msgs ts rounds ;;;
    let resp := response_messages rounds in
    let executionMessages' := executionMessages ++ resp in
    let modelMessages' :=
      match findLast_assistant resp with
      | Some lastAssistantMessage => modelMessages ++ [lastAssistantMessage]
      | None => modelMessages
      end in
    write (StepStatus stepId (id step) planId true) ;;;
    execute_steps llm planId rest modelMessages' executionMessages'
  end.

(** The [for await (const step of elementStream)] loop of Step 2b: one
    plan update per streamed step, carrying the steps so far. *)
Fixpoint stream_plan (planId : string) (acc rest : list Step) : M unit :=
  match rest with
  | [] => ret tt
  | s :: rest' =>
      write (PlanUpdate planId (acc ++ [s])) ;;; stream_plan planId (acc ++ [s]) rest'
  end.

(** [streamAgent], from the converted model messages. *)
Definition streamAgent (llm : LLM) (modelMessages : list ModelMessage) : M unit :=
  reasoningId <- uuidv4 llm ;;
  write (ReasoningStart reasoningId) ;;;
  write (DecisionCall modelMessages) ;;;
  let '(requiresPlanning, reasoning) := decide llm modelMessages in
  write (ReasoningDelta reasoningId reasoning) ;;;
  write (ReasoningEnd reasoningId) ;;;
  if negb requiresPlanning then
    write (DirectResponse NON_REASONING_MODEL modelMessages availableTools)
  else
    write (PlanCall modelMessages) ;;;
    planId <- uuidv4 llm ;;
    write (PlanUpdate planId []) ;;;
    let steps := plan llm modelMessages in
    stream_plan planId [] steps ;;;
    match steps with
    | [] => write (DirectResponse REASONING_MODEL modelMessages availableTools)
    | _ :: _ =>
      finalMessages <- execute_steps llm planId steps modelMessages [] ;;
      write (Synthesis NON_REASONING_MODEL (fst finalMessages))
    end.

(** The events of one invocation. *)
Definition run (llm : LLM) (modelMessages : list ModelMessage) : list Event :=
  events (snd (streamAgent llm modelMessages (mkSt 0 []))).

(** ** Views of an invocation's events *)

(** The step-executor part of an event: step status and step rounds. *)
Inductive StepObs :=
| ObsStatus (stepId : string) (completed : bool)
| ObsRound (tools : list ToolName) (choice : ToolChoice).

Definition step_obs (e : Event) : list StepObs :=
  match e with
  | StepStatus _ sid _ b => [ObsStatus sid b]
  | StepRound _ ts c _ => [ObsRound ts c]
  | _ => []
  end.

Definition project (tr : list Event) : list StepObs := flat_map step_obs tr.

(** The two response paths: a direct [streamText] answer and the final
    synthesis. *)
Definition is_response (e : Event) : bool :=
  match e with
  | DirectResponse _ _ _ | Synthesis _ _ => true
  | _ => false
  end.

Definition response_paths (tr : list Event) : list Event := filter is_response tr.

Definition synthesis_inputs (tr : list Event) : list (list ModelMessage) :=
  flat_map (fun e => match e with Synthesis _ ms => [ms] | _ => [] end) tr.

(** The rounds of each step of a plan, each step seeing the response
    messages of all the steps before it. *)
Fixpoint plan_rounds (llm : LLM) (steps : list Step) (executionMessages : list ModelMessage)
    : list (list (ToolChoice * RoundResult)) :=
  match steps with
  | [] => []
  | step :: rest =>
      let rs := step_rounds llm step executionMessages in
      rs :: plan_rounds llm rest (executionMessages ++ response_messages rs)
  end.

(** Strictly sequential execution: each step is opened, runs its rounds,
    and is closed before the next one opens. *)
Fixpoint expected_obs (steps : list Step) (rounds : list (list (ToolChoice * RoundResult)))
    : list StepObs :=
  match steps, rounds with
  | step :: steps', rs :: rounds' =>
      [ObsStatus (id step) false]
      ++ map (fun cr => ObsRound (resolve_tools (tools step)) (fst cr)) rs
      ++ [ObsStatus (id step) true]
      ++ expected_obs steps' rounds'
  | _, _ => []
  end.

Definition opt_list {A} (o : option A) : list A :=
  match o with Some a => [a] | None => [] end.

(** The step's declared tool list is exactly one visualization tool. *)
Definition single_visualization (ts : list ToolName) : bool :=
  match ts with [t] => is_visualization t | _ => false end.

(** Some earlier round returned a successful chart. *)
Definition chart_succeeded (rounds : list RoundResult) : bool :=
  existsb (fun r =>
    existsb (fun tr => is_visualization (toolName tr) && String.eqb (output tr) chart_success)
      (toolResults r)) rounds.

End Agent.

(** ** Concrete invocations *)

Module Scenarios.
Import Agent.

Definition chat : list ModelMessage := [mkMsg user "How many rows has the sales dataset?"].

Definition count_step : Step :=
  mkStep "step-1" "Count rows" "Count the rows of the sales dataset" "sales dataset"
    [queryDataset].

Definition chart_step : Step :=
  mkStep "step-2" "Chart" "Show sales by region" "sales dataset" [displayBarChart].

(** A model that plans one counting step; the step queries once, then
    answers. *)
Definition counting_llm : LLM := mkLLM
  (fun _ => (true, "needs data"))
  (fun _ => [count_step])
  (fun _ _ _ prev =>
     match prev with
     | [] => mkRound 1 [mkToolResult queryDataset "count: 3"] 0
               [mkMsg assistant "queryDataset call"; mkMsg tool "count: 3"]
     | _ => mkRound 0 [] 0 [mkMsg assistant "The dataset has 3 rows."]
     end)
  (fun n => ("uuid-" ++ nat_to_string n)%string).

(** A model that plans a step, but streams no step. *)
Definition empty_plan_llm : LLM := mkLLM
  (fun _ => (true, "needs data"))
  (fun _ => [])
  (fun _ _ _ _ => mkRound 0 [] 0 [])
  (fun n => ("uuid-" ++ nat_to_string n)%string).

(** A chart step whose chart call keeps failing validation. *)
Definition failing_chart_round : RoundResult :=
  mkRound 1 [mkToolResult displayBarChart "Error: invalid chart config"] 0
    [mkMsg assistant "displayBarChart call"; mkMsg tool "Error: invalid chart config"].

Definition failing_chart_llm : LLM := mkLLM
  (fun _ => (true, "needs a chart"))
  (fun _ => [chart_step])
  (fun _ _ _ _ => failing_chart_round)
  (fun n => ("uuid-" ++ nat_to_string n)%string).

End Scenarios.

(** ** The chart tools [createDisplayBarChartTool],
    [createDisplayLineChartTool] and [createDisplayPieChartTool] *)

Module ChartTools.
Import Agent.

Inductive ChartType := bar | line | pie.

(** [chartConfigSchema]: the [metadata] object and the catch-all keys, each
    with its [{ label }] object (kept here as its label). *)
Record ChartMetadata := mkMetadata { type : ChartType; title : string; description : string }.

Record ChartConfig := mkChartConfig {
  metadata : ChartMetadata;
  restConfig : list (string * string) }.

Section Chart.

(** A row of [data] ([z.record(z.string(), z.union([z.string(), z.number()]))]);
    the tools pass the rows through untouched. *)
Variable Datum : Type.

(** The [data] of a [data-chartDataPart] part. *)
Record ChartPart := mkChartPart { chartData : list Datum; chartConfig : ChartConfig }.

(** [execute] of the chart tool of type [kind]: the parts written to the
    writer, and the returned value. *)
Definition chart_execute (kind : ChartType) (data : list Datum) (config : ChartConfig)
    : list ChartPart * string :=
  let metadata := metadata config in
  let restConfig := restConfig config in
  let updatedConfig :=
    mkChartConfig (mkMetadata kind (title metadata) (description metadata)) restConfig in
  ([mkChartPart data updatedConfig], "Chart displayed successfully.").

End Chart.

(** The key of [availableTools] under which each chart tool is registered. *)
Definition chart_tool (kind : ChartType) : ToolName :=
  match kind with
  | bar => displayBarChart
  | line => displayLineChart
  | pie => displayPieChart
  end.

End ChartTools.

(** ** [detectRequiredHandlers] and [runCode] *)

Module RunCode.

(** Code run under Pyodide: what a run prints (the [batched] stdout
    chunks, or the messages of a package load) and how it ends.  Outcomes
    may depend on the snippets run before. *)
Record Pyodide := mkPyodide {
  load_error : option string;
  import_messages : string -> list string;
  import_error : string -> option string;
  run_stdout : list string -> string -> list string;
  run_result : list string -> string -> string + string }.

(** The state of one [execute]: [outputContent] and the Python snippets
    run so far, in order. *)
Record PyState := mkPyState { outputContent : list string; ran : list string }.

(** An exception monad over [PyState]; a thrown value is kept as its string
    rendering ([`${error}`]). *)
Definition PM (A : Type) : Type := PyState -> (A + string) * PyState.

Definition pret {A} (a : A) : PM A := fun st => (inl a, st).

Definition pbind {A B} (m : PM A) (k : A -> PM B) : PM B :=
  fun st => match m st with
            | (inl a, st') => k a st'
            | (inr e, st') => (inr e, st')
            end.

Definition pcatch {A} (m : PM A) (h : string -> PM A) : PM A :=
  fun st => match m st with
            | (inl a, st') => (inl a, st')
            | (inr e, st') => h e st'
            end.

Notation "x <-- m ;; k" := (pbind m (fun x => k))
  (at level 61, m at next level, right associativity).
Notation "m ;;;; k" := (pbind m (fun _ => k))
  (at level 61, right associativity).

(** [outputContent.push(line)] *)
Definition push (line : string) : PM unit :=
  fun st => (inl tt, mkPyState (outputContent st ++ [line]) (ran st)).

(** [await loadPyodide()] *)
Definition loadPyodide (py : Pyodide) : PM unit :=
  fun st => match load_error py with
            | Some e => (inr e, st)
            | None => (inl tt, st)
            end.

(** [await pyodide.loadPackagesFromImports(code, { messageCallback })] *)
Definition loadPackagesFromImports (py : Pyodide) (code : string) : PM unit :=
  fun st =>
    let st' := mkPyState (outputContent st ++ import_messages py code) (ran st) in
    match import_error py code with
    | Some e => (inr e, st')
    | None => (inl tt, st')
    end.

(** [await pyodide.runPythonAsync(src)], its stdout captured by the
    [batched] callback; returns the result rendered by [+]. *)
Definition runPythonAsync (py : Pyodide) (src : string) : PM string :=
  fun st =>
    let st' := mkPyState (outputContent st ++ run_stdout py (ran st) src) (ran st ++ [src]) in
    (run_result py (ran st) src, st').

(** JavaScript truthiness of a string. *)
Definition truthy (s : string) : bool := negb (String.eqb s EmptyString).

Section Handlers.

(** The two scripts of [OUTPUT_HANDLERS]. *)
Variables matplotlib_src basic_src : string.

Definition OUTPUT_HANDLERS (handler : string) : option string :=
  if String.eqb handler "matplotlib" then Some matplotlib_src
  else if String.eqb handler "basic" then Some basic_src
  else None.

Definition detectRequiredHandlers (code : string) : list string :=
  let handlers := ["basic"] in
  if includes code "matplotlib" || includes code "plt." then handlers ++ ["matplotlib"]
  else handlers.

(** [for (const handler of requiredHandlers) { ... }] *)
Fixpoint run_handlers (py : Pyodide) (handlers : list string) : PM unit :=
  match handlers with
  | [] => pret tt
  | handler :: rest =>
    match OUTPUT_HANDLERS handler with
    | Some src =>
      if truthy src then
        runPythonAsync py src ;;;;
        if String.eqb handler "matplotlib"
        then runPythonAsync py "setup_matplotlib_output()" ;;;; pret tt
        else pret tt
      else pret tt
    | None => pret tt
    end ;;;;
    run_handlers py rest
  end.

(** [execute] of [runCode]: the body of the [try] block, its [catch], and
    the final [outputContent] with the snippets run. *)
Definition runCode_body (py : Pyodide) (python_code : string) : PM unit :=
  loadPyodide py ;;;;
  loadPackagesFromImports py python_code ;;;;
  run_handlers py (detectRequiredHandlers python_code) ;;;;
  result <-- runPythonAsync py python_code ;;
  push ("result: " ++ result).

Definition runCode_execute (py : Pyodide) (python_code : string) : PyState :=
  snd (pcatch (runCode_body py python_code) (fun error => push ("error: " ++ error))
         (mkPyState [] [])).

(** The snippets a run of [python_code] goes through when nothing fails:
    the basic handler, the matplotlib handler and its setup call when the
    code mentions matplotlib, then the code itself. *)
Definition planned_snippets (python_code : string) : list string :=
  [basic_src]
  ++ (if includes python_code "matplotlib" || includes python_code "plt."
      then [matplotlib_src; "setup_matplotlib_output()"] else [])
  ++ [python_code].

End Handlers.

End RunCode.

(** ** The datasets selected for an invocation *)

Module Datasets.

(** The fields of a [Dataset] row that [streamAgent] reads. *)
Record Dataset := mkDataset { id : string; fileName : string }.

(** [selectedDatasets.map((dataset) => dataset.id)] *)
Definition allowedDatasetIds (selectedDatasets : list Dataset) : list string :=
  map id selectedDatasets.

End Datasets.

(** ** More views of an invocation's events *)

Module AgentViews.
Import Agent.

(** The condition under which [generateText] runs another round. *)
Definition round_continues (r : RoundResult) : bool :=
  negb (Nat.eqb (toolCalls r) 0)
  && Nat.eqb (List.length (toolResults r) + toolErrors r) (toolCalls r).

Definition is_round (e : Event) : bool :=
  match e with StepRound _ _ _ _ => true | _ => false end.

(** The number of model rounds run by the steps. *)
Definition count_rounds (tr : list Event) : nat := List.length (filter is_round tr).

(** The step status parts: part id, step id, plan id and [completed]. *)
Definition status_events (tr : list Event) : list (string * string * string * bool) :=
  flat_map (fun e => match e with
                     | StepStatus p s pl b => [(p, s, pl, b)]
                     | _ => []
                     end) tr.

(** The part ids of the plan parts. *)
Definition plan_part_ids (tr : list Event) : list string :=
  flat_map (fun e => match e with PlanUpdate p _ => [p] | _ => [] end) tr.

(** The status parts of steps [n], [n+1], ... of a plan: each step's part
    id is the [n]-th, [n+1]-th, ... [uuidv4()] result. *)
Fixpoint expected_status (llm : LLM) (planId : string) (n : nat) (steps : list Step)
    : list (string * string * string * bool) :=
  match steps with
  | [] => []
  | s :: rest =>
      (uuid llm n, id s, planId, false) :: (uuid llm n, id s, planId, true)
      :: expected_status llm planId (S n) rest
  end.

(** The events of the step loop, step after step. *)
Fixpoint loop_events (llm : LLM) (planId : string) (n : nat) (steps : list Step)
    (executionMessages : list ModelMessage) : list Event :=
  match steps with
  | [] => []
  | step :: rest =>
      let rs := step_rounds llm step executionMessages in
      [StepStatus (uuid llm n) (id step) planId false]
      ++ map (fun cr => StepRound (step_request step executionMessages)
                          (resolve_tools (tools step)) (fst cr) (snd cr)) rs
      ++ [StepStatus (uuid llm n) (id step) planId true]
      ++ loop_events llm planId (S n) rest (executionMessages ++ response_messages rs)
  end.

End AgentViews.

(** ** More concrete invocations *)

Module ExtraScenarios.
Import Agent ChartTools Scenarios.

(** A model that answers directly, without a plan. *)
Definition direct_llm : LLM := mkLLM
  (fun _ => (false, "a greeting"))
  (fun _ => [])
  (fun _ _ _ _ => mkRound 0 [] 0 [])
  (fun n => ("uuid-" ++ nat_to_string n)%string).

Definition sales_chart : ChartConfig :=
  mkChartConfig (mkMetadata line "Sales" "Sales by region") [("sales", "Sales")].

(** A chart step whose first round displays a bar chart, then answers. *)
Definition charting_llm : LLM := mkLLM
  (fun _ => (true, "needs a chart"))
  (fun _ => [chart_step])
  (fun _ _ _ prev =>
     match prev with
     | [] => mkRound 1 [mkToolResult displayBarChart (snd (chart_execute unit bar [] sales_chart))] 0
               [mkMsg assistant "displayBarChart call"; mkMsg tool "Chart displayed successfully."]
     | _ => mkRound 0 [] 0 [mkMsg assistant "Here is the chart."]
     end)
  (fun n => ("uuid-" ++ nat_to_string n)%string).

End ExtraScenarios.

(** ** Strings *)

Module Strings.

(** Every character of a string satisfies [f]. *)
Definition all_chars (f : ascii -> bool) (s : string) : Prop :=
  Forall (fun c => f c = true) (list_ascii_of_string s).

End Strings.


(** * The Dataset Query Guard *)

Module GuardFacts.
Import Guard QueryTool.

(** ** Characters *)

Lemma ci_eq_lower (a b : ascii) :
  is_lower a = true -> ci_eq b a = Ascii.eqb (lower_char b) a.
Proof.
  intros H.
  destruct a as [[] [] [] [] [] [] [] []]; vm_compute in H; try discriminate H;
  destruct b as [[] [] [] [] [] [] [] []]; reflexivity.
Qed.

Lemma lower_letter_word (b : ascii) :
  is_lower (lower_char b) = true -> is_word_char b = true.
Proof.
  destruct b as [[] [] [] [] [] [] [] []]; vm_compute; congruence.
Qed.

Lemma last_char_cons (c : ascii) (p : string) :
  last_char (String c p) =
  match last_char p with Some d => Some d | None => Some c end.
Proof.
  unfold last_char; simpl.
  destruct (rev (list_ascii_of_string p)); reflexivity.
Qed.

Lemma toLowerCase_app (u v : string) :
  toLowerCase (u ++ v) = (toLowerCase u ++ toLowerCase v)%string.
Proof. induction u; simpl; congruence. Qed.

Lemma toLowerCase_length (w : string) : String.length (toLowerCase w) = String.length w.
Proof. induction w; simpl; congruence. Qed.

Lemma substring_app (w post : string) :
  substring 0 (String.length w) (w ++ post) = w.
Proof. induction w; simpl; [destruct post; reflexivity | congruence]. Qed.

(** ** Case-insensitive literals *)

Lemma prefix_ci_spec (kw s rest : string) :
  all_lower kw = true ->
  prefix_ci kw s = Some rest <->
  exists w, s = (w ++ rest)%string /\ toLowerCase w = kw.
Proof.
  revert s; induction kw as [|a kw IH]; intros s Hl.
  - simpl; split.
    + intros [= <-]; exists EmptyString; auto.
    + intros [w [-> Hw]]; destruct w; [reflexivity | discriminate Hw].
  - simpl in Hl; apply andb_true_iff in Hl as [Ha Hl].
    destruct s as [|b s]; simpl.
    + split; [discriminate|].
      intros [w [Hw Hl']]; destruct w; discriminate.
    + rewrite (ci_eq_lower a b Ha).
      destruct (Ascii.eqb (lower_char b) a) eqn:E.
      * apply Ascii.eqb_eq in E; rewrite (IH s Hl); split.
        -- intros [w [-> Hw]]; exists (String b w); simpl; subst; auto.
        -- intros [w [Hw Hlw]]; destruct w as [|b' w]; [discriminate|].
           simpl in Hw, Hlw; injection Hw as <- ->; injection Hlw as _ Hlw.
           eauto.
      * split; [discriminate|].
        intros [w [Hw Hlw]]; destruct w as [|b' w]; [discriminate|].
        simpl in Hw, Hlw; injection Hw as <- _; injection Hlw as Hb _.
        rewrite Hb, Ascii.eqb_refl in E; discriminate.
Qed.

Lemma all_lower_last_word (w : string) :
  all_lower (toLowerCase w) = true -> w <> EmptyString ->
  word_opt (last_char w) = true.
Proof.
  induction w as [|c w IH]; intros Hl Hne; [congruence|].
  simpl in Hl; apply andb_true_iff in Hl as [Hc Hl].
  rewrite last_char_cons.
  destruct w as [|d w'].
  - simpl; apply lower_letter_word; exact Hc.
  - specialize (IH Hl ltac:(discriminate)).
    destruct (last_char (String d w')); [exact IH | discriminate IH].
Qed.

Lemma boundary_word (prev : option ascii) (s : string) :
  boundary prev s = xorb (word_opt prev) (word_first s).
Proof. destruct prev, s; reflexivity. Qed.

Lemma toLowerCase_empty (w : string) : toLowerCase w = EmptyString -> w = EmptyString.
Proof. destruct w; simpl; congruence. Qed.

(** ** The keyword test is the whole-word occurrence test *)

Lemma kw_at_spec (kw : string) (prev : option ascii) (s : string) :
  all_lower kw = true -> kw <> EmptyString ->
  kw_at kw prev s = true <->
  exists w post, s = (w ++ post)%string /\ toLowerCase w = kw /\
    word_opt prev = false /\ word_first post = false.
Proof.
  intros Hl Hne; unfold kw_at; rewrite boundary_word; split.
  - intros H; apply andb_true_iff in H as [Hb H].
    destruct (prefix_ci kw s) as [post|] eqn:E; [|discriminate].
    apply (prefix_ci_spec kw s post Hl) in E as [w [-> Hw]].
    exists w, post; split; [reflexivity|]; split; [exact Hw|].
    assert (Hwne : w <> EmptyString) by (intros ->; subst; apply Hne; reflexivity).
    assert (Hlast : word_opt (last_char w) = true)
      by (apply all_lower_last_word; [subst; exact Hl | exact Hwne]).
    destruct w as [|b w']; [congruence|].
    assert (Hfirst : is_word_char b = true).
    { apply lower_letter_word; subst; simpl in Hl.
      apply andb_true_iff in Hl; tauto. }
    simpl in Hb; rewrite Hfirst in Hb.
    rewrite boundary_word in H.
    rewrite <- Hw, toLowerCase_length, substring_app, Hlast in H.
    destruct (word_opt prev), (word_first post); simpl in *; auto; discriminate.
  - intros [w [post [-> [Hw [Hp Hq]]]]].
    assert (Hwne : w <> EmptyString) by (intros ->; subst; apply Hne; reflexivity).
    assert (Hlast : word_opt (last_char w) = true)
      by (apply all_lower_last_word; [subst; exact Hl | exact Hwne]).
    assert (E : prefix_ci kw (w ++ post) = Some post)
      by (apply (prefix_ci_spec kw _ post Hl); eauto).
    rewrite E, boundary_word, <- Hw, toLowerCase_length, substring_app, Hlast, Hp, Hq.
    destruct w as [|b w']; [congruence|].
    assert (Hfirst : is_word_char b = true).
    { apply lower_letter_word; subst; simpl in Hl.
      apply andb_true_iff in Hl; tauto. }
    simpl; rewrite Hfirst; reflexivity.
Qed.

Lemma kw_search_spec (kw : string) (s : string) (prev : option ascii) :
  all_lower kw = true -> kw <> EmptyString ->
  kw_search kw prev s = true <->
  exists pre w post, s = (pre ++ w ++ post)%string /\ toLowerCase w = kw /\
    match last_char pre with Some c => is_word_char c | None => word_opt prev end = false /\
    word_first post = false.
Proof.
  intros Hl Hne; revert prev; induction s as [|c s IH]; intros prev.
  - simpl; rewrite orb_false_r, (kw_at_spec kw prev EmptyString Hl Hne); split.
    + intros [w [post [Hs [Hw [Hp Hq]]]]].
      exists EmptyString, w, post; simpl; auto.
    + intros [pre [w [post [Hs [Hw [Hp Hq]]]]]].
      destruct pre; [|discriminate Hs].
      exists w, post; simpl in Hp; auto.
  - simpl kw_search; rewrite orb_true_iff, (kw_at_spec kw prev _ Hl Hne), IH; split.
    + intros [[w [post [Hs [Hw [Hp Hq]]]]] | [pre [w [post [Hs [Hw [Hp Hq]]]]]]].
      * exists EmptyString, w, post; simpl; auto.
      * exists (String c pre), w, post; rewrite last_char_cons; simpl; subst s.
        repeat split; auto.
        destruct (last_char pre); exact Hp.
    + intros [pre [w [post [Hs [Hw [Hp Hq]]]]]].
      destruct pre as [|c' pre].
      * left; exists w, post; simpl in Hp; auto.
      * right; simpl in Hs; injection Hs as <- Hs.
        exists pre, w, post; repeat split; auto.
        rewrite last_char_cons in Hp; destruct (last_char pre); exact Hp.
Qed.

Lemma kw_test_whole_word (kw query : string) :
  all_lower kw = true -> kw <> EmptyString ->
  kw_test kw query = true <-> whole_word kw query.
Proof.
  intros Hl Hne; unfold kw_test, whole_word.
  rewrite (kw_search_spec kw query None Hl Hne).
  split; intros [pre [w [post [Hs [Hw [Hp Hq]]]]]]; exists pre, w, post;
    (repeat split; auto); destruct (last_char pre); exact Hp.
Qed.

Lemma dangerousKeywords_lower (kw : string) :
  In kw dangerousKeywords -> all_lower kw = true /\ kw <> EmptyString.
Proof.
  simpl; intros H; repeat destruct H as [<- | H]; try contradiction;
    split; (reflexivity || discriminate).
Qed.

Lemma first_keyword_some (kws : list string) (query kw : string) :
  first_keyword kws query = Some kw -> In kw kws /\ kw_test kw query = true.
Proof.
  induction kws as [|k kws IH]; simpl; [discriminate|].
  destruct (kw_test k query) eqn:E.
  - intros [= <-]; auto.
  - intros H; apply IH in H as [H1 H2]; auto.
Qed.

Lemma first_keyword_none (kws : list string) (query : string) :
  first_keyword kws query = None <-> (forall kw, In kw kws -> kw_test kw query = false).
Proof.
  induction kws as [|k kws IH]; simpl.
  - split; [intros _ kw []|reflexivity].
  - destruct (kw_test k query) eqn:E; split.
    + discriminate.
    + intros H; rewrite (H k (or_introl eq_refl)) in E; discriminate.
    + intros H kw [<- | Hin]; [exact E | apply IH; assumption].
    + intros H; apply IH; intros kw Hin; apply H; auto.
Qed.

(** ** Scope membership *)

Lemma first_denied_some (ids allowed : list string) (x : string) :
  first_denied ids allowed = Some x ->
  exists pre post, ids = pre ++ x :: post /\
    Forall (fun y => array_includes allowed y = true) pre /\
    array_includes allowed x = false.
Proof.
  induction ids as [|y ids IH]; simpl; [discriminate|].
  destruct (array_includes allowed y) eqn:E.
  - intros H; apply IH in H as [pre [post [-> [Hpre Hx]]]].
    exists (y :: pre), post; simpl; auto.
  - intros [= <-]; exists [], ids; simpl; auto.
Qed.

Lemma first_denied_exists (ids allowed : list string) (x : string) :
  In x ids -> array_includes allowed x = false ->
  exists y, first_denied ids allowed = Some y.
Proof.
  induction ids as [|y ids IH]; simpl; [contradiction|].
  intros [<- | Hin] Hx.
  - rewrite Hx; eauto.
  - destruct (array_includes allowed y); eauto.
Qed.

Lemma array_includes_nil (x : string) : array_includes [] x = false.
Proof. reflexivity. Qed.

(** ** What the tool sends to the store *)

Lemma execute_invalid (Row : Type) (db : string -> DbOutcome Row)
    (allowedDatasetIds : list string) (sqlQuery : string) :
  valid (validateSQLQuery sqlQuery allowedDatasetIds) = false ->
  execute Row db allowedDatasetIds sqlQuery
  = ([], Failure Row (error (validateSQLQuery sqlQuery allowedDatasetIds))).
Proof. intros H; unfold execute; rewrite H; reflexivity. Qed.

Lemma execute_valid (Row : Type) (db : string -> DbOutcome Row)
    (allowedDatasetIds : list string) (sqlQuery : string) :
  valid (validateSQLQuery sqlQuery allowedDatasetIds) = true ->
  fst (execute Row db allowedDatasetIds sqlQuery) = [capped sqlQuery].
Proof.
  intros H; unfold execute; rewrite H; simpl.
  destruct (db (capped sqlQuery)); reflexivity.
Qed.

(** The guard's verdict, one check after the other. *)
Lemma validate_unfold (query : string) (allowedDatasetIds : list string) :
  validateSQLQuery query allowedDatasetIds =
  if negb (startsWith (toLowerCase (trim query)) "select") then invalid only_select_error
  else match first_keyword dangerousKeywords query with
  | Some kw => invalid (forbidden_error kw)
  | None =>
    if negb (includes (toLowerCase (trim query)) "dataset_rows") then invalid table_error
    else match matchAll_ids query with
      | [] => invalid (missing_filter_error allowedDatasetIds)
      | _ :: _ =>
        match first_denied (matchAll_ids query) allowedDatasetIds with
        | Some referencedId => invalid (access_denied_error referencedId allowedDatasetIds)
        | None => mkValidation true None
        end
      end
  end.
Proof.
  unfold validateSQLQuery; cbv zeta.
  destruct (negb _); [reflexivity|].
  destruct (first_keyword _ _); [reflexivity|].
  destruct (negb _); [reflexivity|].
  destruct (matchAll_ids query); reflexivity.
Qed.

End GuardFacts.

Module GuardClaims.
Import Guard QueryTool GuardFacts.

(** C1 (divergence): the scope-filter pattern captures only the first id
    of an IN-list, so in [dataset_id IN ('a1', 'b2')] the id [b2] is never
    checked: with the scope [["a1"]] the guard approves the query and the
    tool sends it to the store. *)
Theorem C1_in_list_second_id_unchecked :
  let q := "SELECT * FROM dataset_rows WHERE dataset_id IN ('a1', 'b2')" in
  matchAll_ids q = ["a1"] /\
  array_includes ["a1"] "b2" = false /\
  validateSQLQuery q ["a1"] = mkValidation true None /\
  fst (execute unit (fun _ => DbRows unit []) ["a1"] q) = [(q ++ " LIMIT 1000")%string].
Proof. intros q; vm_compute; repeat split. Qed.

(** C2: a query in which the guard recognizes no scope-filter expression
    is rejected, and the query tool returns the failure payload without
    sending anything to the store. *)
Theorem C2_unscoped_query_never_executes (Row : Type) (db : string -> DbOutcome Row)
    (allowedDatasetIds : list string) (query : string)
    (Hnone : matchAll_ids query = []) :
  valid (validateSQLQuery query allowedDatasetIds) = false /\
  execute Row db allowedDatasetIds query
  = ([], Failure Row (error (validateSQLQuery query allowedDatasetIds))).
Proof.
  assert (H : valid (validateSQLQuery query allowedDatasetIds) = false).
  { rewrite validate_unfold, Hnone.
    destruct (negb _); [reflexivity|].
    destruct (first_keyword _ _); [reflexivity|].
    destruct (negb _); reflexivity. }
  split; [exact H | apply execute_invalid; exact H].
Qed.

Lemma C2_unscoped_query_never_executes_witness :
  matchAll_ids "SELECT * FROM dataset_rows" = [] /\
  valid (validateSQLQuery "SELECT * FROM dataset_rows" ["a1"]) = false /\
  execute unit (fun _ => DbRows unit [tt]) ["a1"] "SELECT * FROM dataset_rows"
  = ([], Failure unit (error (validateSQLQuery "SELECT * FROM dataset_rows" ["a1"]))).
Proof.
  assert (Hm : matchAll_ids "SELECT * FROM dataset_rows" = []) by reflexivity.
  split; [exact Hm|].
  exact (C2_unscoped_query_never_executes unit (fun _ => DbRows unit [tt]) ["a1"] _ Hm).
Defined.

(** C10: under the empty scope every query is rejected and the query tool
    never reaches the store. *)
Theorem C10_empty_scope_rejects_everything (Row : Type) (db : string -> DbOutcome Row)
    (query : string) :
  valid (validateSQLQuery query []) = false /\
  execute Row db [] query = ([], Failure Row (error (validateSQLQuery query []))).
Proof.
  assert (H : valid (validateSQLQuery query []) = false).
  { rewrite validate_unfold.
    destruct (negb _); [reflexivity|].
    destruct (first_keyword _ _); [reflexivity|].
    destruct (negb _); [reflexivity|].
    destruct (matchAll_ids query) as [|x ids]; reflexivity. }
  split; [exact H | apply execute_invalid; exact H].
Qed.

(** C5 (divergence): the row cap is skipped whenever the text contains
    [limit] anywhere, not only in a LIMIT clause.  The approved query below
    mentions [limit] only inside the JSON key ['credit_limit'] (so [limit]
    is not even a whole word of it), yet it is sent to the store unchanged,
    without [LIMIT 1000]. *)
Theorem C5_limit_substring_skips_cap :
  let q := "SELECT data->>'credit_limit' FROM dataset_rows WHERE dataset_id = 'a1'" in
  valid (validateSQLQuery q ["a1"]) = true /\
  ~ whole_word "limit" q /\
  fst (execute unit (fun _ => DbRows unit []) ["a1"] q) = [q].
Proof.
  intros q; split; [vm_compute; reflexivity|]; split.
  - rewrite <- (kw_test_whole_word "limit" q eq_refl ltac:(discriminate)).
    vm_compute; discriminate.
  - vm_compute; reflexivity.
Qed.

(** C4 (counterexample): the keyword check runs only on queries that
    start with [select]: [DROP TABLE dataset_rows] contains the whole word
    [drop] but is rejected by the first check, with the "Only SELECT
    queries" reason, not a forbidden-keyword one.  And [\b] treats [$] as a
    word boundary, so [drop] inside the PostgreSQL identifier [x$drop]
    triggers the forbidden-keyword rejection. *)
Lemma C4_counterexample :
  let q1 := "SELECT x$drop FROM dataset_rows WHERE dataset_id = 'a1'" in
  let q2 := "DROP TABLE dataset_rows" in
  q1 = ("SELECT " ++ "x$drop" ++ " FROM dataset_rows WHERE dataset_id = 'a1'")%string /\
  validateSQLQuery q1 ["a1"] = invalid (forbidden_error "drop") /\
  whole_word "drop" q2 /\
  validateSQLQuery q2 ["a1"] = invalid only_select_error /\
  (forall k, only_select_error <> forbidden_error k).
Proof.
  intros q1 q2; split; [reflexivity|]; split; [vm_compute; reflexivity|]; split.
  - apply kw_test_whole_word; [reflexivity | discriminate | vm_compute; reflexivity].
  - split; [vm_compute; reflexivity|].
    intros k; unfold only_select_error, forbidden_error; simpl; discriminate.
Qed.

(** C4 (amended): a listed keyword occurring as a whole word (in any
    letter case, anywhere, with no [[A-Za-z0-9_]] character right before or
    after it) always makes the query invalid.  When the trimmed,
    lower-cased query starts with [select], the reason is a
    forbidden-keyword reason exactly when some listed keyword occurs as a
    whole word (an occurrence glued to [[A-Za-z0-9_]] characters never
    triggers it); otherwise the reason is the "Only SELECT queries" one. *)
Theorem C4_whole_word_keyword_rejected (query : string) (allowedDatasetIds : list string) :
  ((exists kw, In kw dangerousKeywords /\ whole_word kw query) ->
     valid (validateSQLQuery query allowedDatasetIds) = false) /\
  (startsWith (toLowerCase (trim query)) "select" = true ->
     ((exists k, error (validateSQLQuery query allowedDatasetIds) = Some (forbidden_error k))
      <-> (exists kw, In kw dangerousKeywords /\ whole_word kw query))) /\
  (startsWith (toLowerCase (trim query)) "select" = false ->
     validateSQLQuery query allowedDatasetIds = invalid only_select_error).
Proof.
  assert (Hsome : forall kw, In kw dangerousKeywords -> whole_word kw query ->
            exists k, first_keyword dangerousKeywords query = Some k).
  { intros kw Hin Hw.
    destruct (first_keyword dangerousKeywords query) as [k|] eqn:E; [eauto|].
    rewrite first_keyword_none in E.
    destruct (dangerousKeywords_lower kw Hin) as [Hl Hne].
    apply (kw_test_whole_word kw query Hl Hne) in Hw.
    rewrite (E kw Hin) in Hw; discriminate. }
  split; [|split].
  - intros [kw [Hin Hw]]; rewrite validate_unfold.
    destruct (negb _); [reflexivity|].
    destruct (Hsome kw Hin Hw) as [k ->]; reflexivity.
  - intros Hsel; rewrite validate_unfold, Hsel; simpl negb; cbv iota; split.
    + destruct (first_keyword dangerousKeywords query) as [k|] eqn:E.
      * intros _; apply first_keyword_some in E as [Hin Ht].
        destruct (dangerousKeywords_lower k Hin) as [Hl Hne].
        exists k; split; [exact Hin|]; apply kw_test_whole_word; assumption.
      * intros [k Hk]; exfalso.
        destruct (negb _); [unfold table_error, forbidden_error in Hk; simpl in Hk; discriminate|].
        destruct (matchAll_ids query); [unfold missing_filter_error, forbidden_error in Hk; simpl in Hk; discriminate|].
        destruct (first_denied _ _); simpl in Hk; [|discriminate].
        unfold access_denied_error, forbidden_error in Hk; simpl in Hk; discriminate.
    + intros [kw [Hin Hw]]; destruct (Hsome kw Hin Hw) as [k ->]; simpl; eauto.
  - intros Hsel; rewrite validate_unfold, Hsel; reflexivity.
Qed.

Lemma C4_whole_word_keyword_rejected_witness :
  let q := "SELECT * FROM dataset_rows WHERE dataset_id = 'a1'; DROP TABLE users;" in
  whole_word "drop" q /\ valid (validateSQLQuery q ["a1"]) = false.
Proof.
  intros q.
  assert (Hw : whole_word "drop" q)
    by (apply kw_test_whole_word; [reflexivity | discriminate | vm_compute; reflexivity]).
  split; [exact Hw|].
  apply (proj1 (C4_whole_word_keyword_rejected q ["a1"])).
  exists "drop"; split; [simpl; tauto | exact Hw].
Defined.

(** C6 (counterexample): the spec's own scenario with the table written
    [rows]: the extracted id [C] is outside the scope [[A; B]], but the
    guard stops at the table check and its message does not name [C]. *)
Lemma C6_counterexample :
  let q := "SELECT * FROM rows WHERE dataset_id = 'C'" in
  matchAll_ids q = ["C"] /\
  array_includes ["A"; "B"] "C" = false /\
  validateSQLQuery q ["A"; "B"] = invalid table_error /\
  includes table_error "C" = false.
Proof. intros q; vm_compute; repeat split. Qed.

(** C6 (amended): when some extracted scope id is outside the scope, the
    first such id in text order is the one the access check names; when
    the query passes the earlier checks (it starts with [select], has no
    whole-word mutating keyword and mentions [dataset_rows]) the rejection
    names that id and lists the scope joined by [", "], and when that id is
    the only offending one it is the one named.  A query that fails an
    earlier check gets that check's message instead: the select message,
    else the forbidden-keyword message naming a keyword that occurs as a
    whole word, else the table message. *)
Theorem C6_denied_id_named (query : string) (allowedDatasetIds : list string) (bad : string)
    (Hin : In bad (matchAll_ids query))
    (Hout : array_includes allowedDatasetIds bad = false) :
  exists referencedId pre post,
    matchAll_ids query = pre ++ referencedId :: post /\
    Forall (fun y => array_includes allowedDatasetIds y = true) pre /\
    array_includes allowedDatasetIds referencedId = false /\
    ((forall x, In x (matchAll_ids query) -> array_includes allowedDatasetIds x = false -> x = bad) ->
     referencedId = bad) /\
    (startsWith (toLowerCase (trim query)) "select" = true ->
     (forall kw, In kw dangerousKeywords -> ~ whole_word kw query) ->
     includes (toLowerCase (trim query)) "dataset_rows" = true ->
     validateSQLQuery query allowedDatasetIds
       = invalid (access_denied_error referencedId allowedDatasetIds)) /\
    (startsWith (toLowerCase (trim query)) "select" = false ->
     validateSQLQuery query allowedDatasetIds = invalid only_select_error) /\
    (startsWith (toLowerCase (trim query)) "select" = true ->
     (exists kw, In kw dangerousKeywords /\ whole_word kw query) ->
     exists kw, In kw dangerousKeywords /\ whole_word kw query /\
       validateSQLQuery query allowedDatasetIds = invalid (forbidden_error kw)) /\
    (startsWith (toLowerCase (trim query)) "select" = true ->
     (forall kw, In kw dangerousKeywords -> ~ whole_word kw query) ->
     includes (toLowerCase (trim query)) "dataset_rows" = false ->
     validateSQLQuery query allowedDatasetIds = invalid table_error).
Proof.
  assert (Hnone : (forall kw, In kw dangerousKeywords -> ~ whole_word kw query) ->
                  first_keyword dangerousKeywords query = None).
  { intros Hkw; apply first_keyword_none; intros kw Hk.
    destruct (kw_test kw query) eqn:E; [|reflexivity]; exfalso.
    destruct (dangerousKeywords_lower kw Hk) as [Hl Hne].
    apply (Hkw kw Hk), (kw_test_whole_word kw query Hl Hne), E. }
  destruct (first_denied_exists _ _ _ Hin Hout) as [r Hr].
  destruct (first_denied_some _ _ _ Hr) as [pre [post [Hsplit [Hpre Hrout]]]].
  exists r, pre, post.
  split; [exact Hsplit|]; split; [exact Hpre|]; split; [exact Hrout|]; split.
  { intros Huniq; apply Huniq; [rewrite Hsplit; apply in_or_app; simpl; auto | exact Hrout]. }
  split.
  { intros Hsel Hkw Htab.
    rewrite validate_unfold, Hsel, (Hnone Hkw), Htab; simpl negb; cbv iota.
    destruct (matchAll_ids query) eqn:E; [contradiction|].
    rewrite Hr; reflexivity. }
  split.
  { intros Hsel; rewrite validate_unfold, Hsel; reflexivity. }
  split.
  { intros Hsel [kw [Hk Hw]].
    destruct (first_keyword dangerousKeywords query) as [k|] eqn:E.
    - apply first_keyword_some in E as Hks; destruct Hks as [Hkin Ht].
      destruct (dangerousKeywords_lower k Hkin) as [Hl Hne].
      exists k; split; [exact Hkin|]; split; [apply kw_test_whole_word; assumption|].
      rewrite validate_unfold, Hsel, E; reflexivity.
    - exfalso; rewrite first_keyword_none in E.
      destruct (dangerousKeywords_lower kw Hk) as [Hl Hne].
      apply (kw_test_whole_word kw query Hl Hne) in Hw.
      rewrite (E kw Hk) in Hw; discriminate. }
  intros Hsel Hkw Htab.
  rewrite validate_unfold, Hsel, (Hnone Hkw), Htab; reflexivity.
Qed.

Lemma C6_denied_id_named_witness :
  let q := "SELECT * FROM dataset_rows WHERE dataset_id = 'c'" in
  exists referencedId pre post,
    matchAll_ids q = pre ++ referencedId :: post /\
    Forall (fun y => array_includes ["a"; "b"] y = true) pre /\
    array_includes ["a"; "b"] referencedId = false /\
    ((forall x, In x (matchAll_ids q) -> array_includes ["a"; "b"] x = false -> x = "c") ->
     referencedId = "c") /\
    (startsWith (toLowerCase (trim q)) "select" = true ->
     (forall kw, In kw dangerousKeywords -> ~ whole_word kw q) ->
     includes (toLowerCase (trim q)) "dataset_rows" = true ->
     validateSQLQuery q ["a"; "b"] = invalid (access_denied_error referencedId ["a"; "b"])) /\
    (startsWith (toLowerCase (trim q)) "select" = false ->
     validateSQLQuery q ["a"; "b"] = invalid only_select_error) /\
    (startsWith (toLowerCase (trim q)) "select" = true ->
     (exists kw, In kw dangerousKeywords /\ whole_word kw q) ->
     exists kw, In kw dangerousKeywords /\ whole_word kw q /\
       validateSQLQuery q ["a"; "b"] = invalid (forbidden_error kw)) /\
    (startsWith (toLowerCase (trim q)) "select" = true ->
     (forall kw, In kw dangerousKeywords -> ~ whole_word kw q) ->
     includes (toLowerCase (trim q)) "dataset_rows" = false ->
     validateSQLQuery q ["a"; "b"] = invalid table_error).
Proof.
  intros q; apply (C6_denied_id_named q ["a"; "b"] "c").
  - vm_compute; auto.
  - reflexivity.
Defined.

End GuardClaims.

(** * The orchestration engine *)

Module AgentFacts.
Import Agent.

Lemma project_app (a b : list Event) : project (a ++ b) = project a ++ project b.
Proof. unfold project; apply flat_map_app. Qed.

Lemma response_paths_app (a b : list Event) :
  response_paths (a ++ b) = response_paths a ++ response_paths b.
Proof. unfold response_paths; apply filter_app. Qed.

Lemma synthesis_inputs_app (a b : list Event) :
  synthesis_inputs (a ++ b) = synthesis_inputs a ++ synthesis_inputs b.
Proof. unfold synthesis_inputs; apply flat_map_app. Qed.

Lemma emit_rounds_run (msgs : list ModelMessage) (ts : list ToolName)
    (rounds : list (ToolChoice * RoundResult)) (st : St) :
  emit_rounds msgs ts rounds st =
  (tt, mkSt (next_uuid st)
         (events st ++ map (fun cr => StepRound msgs ts (fst cr) (snd cr)) rounds)).
Proof.
  revert st; induction rounds as [|[c r] rounds IH]; intros [n ev]; simpl.
  - rewrite app_nil_r; reflexivity.
  - unfold bind; simpl; rewrite IH; simpl; rewrite <- app_assoc; reflexivity.
Qed.

Lemma project_rounds (msgs : list ModelMessage) (ts : list ToolName)
    (rounds : list (ToolChoice * RoundResult)) :
  project (map (fun cr => StepRound msgs ts (fst cr) (snd cr)) rounds)
  = map (fun cr => ObsRound ts (fst cr)) rounds.
Proof. induction rounds as [|[c r] rounds IH]; simpl; [reflexivity|]; rewrite IH; reflexivity. Qed.

Lemma response_paths_rounds (msgs : list ModelMessage) (ts : list ToolName)
    (rounds : list (ToolChoice * RoundResult)) :
  response_paths (map (fun cr => StepRound msgs ts (fst cr) (snd cr)) rounds) = [].
Proof. induction rounds as [|[c r] rounds IH]; simpl; auto. Qed.

Lemma synthesis_inputs_rounds (msgs : list ModelMessage) (ts : list ToolName)
    (rounds : list (ToolChoice * RoundResult)) :
  synthesis_inputs (map (fun cr => StepRound msgs ts (fst cr) (snd cr)) rounds) = [].
Proof. induction rounds as [|[c r] rounds IH]; simpl; auto. Qed.

Lemma bind_run {A B} (m : M A) (k : A -> M B) (st : St) :
  bind m k st = let '(a, st') := m st in k a st'.
Proof. reflexivity. Qed.

(** The step loop: the conversation it hands on, and the events it adds. *)
Lemma execute_steps_run (llm : LLM) (planId : string) (steps : list Step)
    (modelMessages executionMessages : list ModelMessage) (st : St) :
  exists n evs,
    execute_steps llm planId steps modelMessages executionMessages st
    = ((modelMessages ++
          flat_map (fun rs => opt_list (findLast_assistant (response_messages rs)))
            (plan_rounds llm steps executionMessages),
        executionMessages ++ flat_map response_messages (plan_rounds llm steps executionMessages)),
       mkSt n (events st ++ evs)) /\
    project evs = expected_obs steps (plan_rounds llm steps executionMessages) /\
    response_paths evs = [] /\ synthesis_inputs evs = [].
Proof.
  revert modelMessages executionMessages st.
  induction steps as [|step steps IH]; intros mm em [n ev].
  - exists n, []; simpl; rewrite !app_nil_r; auto.
  - cbn -[generateText step_request resolve_tools initial_tool_choice findLast_assistant
           response_messages emit_rounds].
    change (generateText llm (step_request step em) (resolve_tools (tools step))
              (initial_tool_choice step)) with (step_rounds llm step em).
    set (rounds := step_rounds llm step em).
    rewrite bind_run, emit_rounds_run; cbv beta iota.
    rewrite bind_run; unfold write; cbv beta iota; cbn [next_uuid events].
    set (mm' := match findLast_assistant (response_messages rounds) with
                | Some m => mm ++ [m] | None => mm end).
    set (ev1 := ((ev ++ [StepStatus (uuid llm n) (id step) planId false]) ++
                 map (fun cr => StepRound (step_request step em) (resolve_tools (tools step))
                                  (fst cr) (snd cr)) rounds) ++
                [StepStatus (uuid llm n) (id step) planId true]).
    destruct (IH mm' (em ++ response_messages rounds) (mkSt (S n) ev1))
      as [n' [evs [Hrun [Hproj [Hresp Hsyn]]]]].
    rewrite Hrun.
    set (evs1 := [StepStatus (uuid llm n) (id step) planId false] ++
                 map (fun cr => StepRound (step_request step em) (resolve_tools (tools step))
                                  (fst cr) (snd cr)) rounds ++
                 [StepStatus (uuid llm n) (id step) planId true]).
    exists n', (evs1 ++ evs); split; [|split; [|split]].
    + f_equal; [f_equal|].
      * unfold mm'; destruct (findLast_assistant _); simpl; [rewrite <- app_assoc|]; reflexivity.
      * rewrite app_assoc; reflexivity.
      * f_equal; cbn [events]; unfold ev1, evs1; rewrite <- !app_assoc; reflexivity.
    + rewrite project_app, Hproj; unfold evs1; rewrite !project_app, project_rounds.
      rewrite <- !app_assoc; reflexivity.
    + rewrite response_paths_app, Hresp; unfold evs1.
      rewrite !response_paths_app, response_paths_rounds; reflexivity.
    + rewrite synthesis_inputs_app, Hsyn; unfold evs1.
      rewrite !synthesis_inputs_app, synthesis_inputs_rounds; reflexivity.
Qed.

Lemma stream_plan_run (planId : string) (acc rest : list Step) (st : St) :
  exists evs,
    stream_plan planId acc rest st = (tt, mkSt (next_uuid st) (events st ++ evs)) /\
    project evs = [] /\ response_paths evs = [] /\ synthesis_inputs evs = [].
Proof.
  revert acc st; induction rest as [|s rest IH]; intros acc [n ev].
  - exists []; rewrite app_nil_r; auto.
  - cbn [stream_plan]; rewrite bind_run; unfold write; cbv beta iota; cbn [next_uuid events].
    destruct (IH (acc ++ [s]) (mkSt n (ev ++ [PlanUpdate planId (acc ++ [s])])))
      as [evs [Hrun [H1 [H2 H3]]]].
    rewrite Hrun; cbn [next_uuid events].
    exists (PlanUpdate planId (acc ++ [s]) :: evs); rewrite <- app_assoc; auto.
Qed.

(** The planned path with a non-empty plan: a prefix of reasoning and plan
    events, the step loop, and the synthesis call as the last event. *)
Lemma run_planned (llm : LLM) (msgs : list ModelMessage) (reasoning : string)
    (s : Step) (ss : list Step) :
  decide llm msgs = (true, reasoning) -> plan llm msgs = s :: ss ->
  exists pre evs,
    run llm msgs =
      pre ++ evs ++
      [Synthesis NON_REASONING_MODEL
         (msgs ++ flat_map (fun rs => opt_list (findLast_assistant (response_messages rs)))
                    (plan_rounds llm (s :: ss) []))] /\
    project pre = [] /\ response_paths pre = [] /\ synthesis_inputs pre = [] /\
    project evs = expected_obs (s :: ss) (plan_rounds llm (s :: ss) []) /\
    response_paths evs = [] /\ synthesis_inputs evs = [].
Proof.
  intros Hd Hp.
  remember (plan_rounds llm (s :: ss) []) as pr eqn:Hpr.
  remember (expected_obs (s :: ss) pr) as eo eqn:Heo.
  unfold run, streamAgent; rewrite Hd, Hp.
  cbn -[stream_plan execute_steps].
  set (st0 := mkSt 2 _).
  rewrite bind_run.
  destruct (stream_plan_run (uuid llm 1) [] (s :: ss) st0) as [evp [Hsp [Hp1 [Hp2 Hp3]]]].
  rewrite Hsp; cbv beta iota; rewrite bind_run.
  destruct (execute_steps_run llm (uuid llm 1) (s :: ss) msgs []
              (mkSt (next_uuid st0) (events st0 ++ evp)))
    as [n [evs [Hex [He1 [He2 He3]]]]].
  rewrite Hex; cbv beta iota; unfold write; cbn [fst snd events].
  rewrite <- Hpr in He1 |- *; rewrite <- Heo in He1.
  exists (events st0 ++ evp), evs; split; [rewrite <- !app_assoc; reflexivity|].
  unfold st0; cbn [events].
  rewrite !project_app, !response_paths_app, !synthesis_inputs_app, Hp1, Hp2, Hp3.
  repeat split; auto.
Qed.

End AgentFacts.

Module AgentClaims.
Import Agent AgentFacts Scenarios.

Lemma generate_rounds_choice (llm : LLM) (msgs : list ModelMessage) (ts : list ToolName)
    (tc : ToolChoice) (remaining : nat) (steps : list RoundResult) (i : nat)
    (c : ToolChoice) (r : RoundResult) :
  nth_error (generate_rounds llm msgs ts tc remaining steps) i = Some (c, r) ->
  c = match prepareStep (steps ++ firstn i (map snd (generate_rounds llm msgs ts tc remaining steps)))
      with Some c' => c' | None => tc end.
Proof.
  revert steps i; induction remaining as [|remaining IH]; intros steps i H;
    [destruct i; discriminate|].
  cbn [generate_rounds] in *.
  set (c0 := match prepareStep steps with Some c' => c' | None => tc end) in *.
  set (r0 := round llm msgs ts c0 steps) in *.
  destruct i as [|i].
  - cbn in H; injection H as <- _; rewrite app_nil_r; reflexivity.
  - cbn [nth_error] in H; cbn [map firstn snd].
    destruct (negb _ && _); [|destruct i; discriminate].
    rewrite (IH (steps ++ [r0]) i H), <- app_assoc; reflexivity.
Qed.

Lemma generate_rounds_nonempty (llm : LLM) (msgs : list ModelMessage) (ts : list ToolName)
    (tc : ToolChoice) (remaining : nat) (steps : list RoundResult) :
  remaining <> 0 -> generate_rounds llm msgs ts tc remaining steps <> [].
Proof. destruct remaining; [congruence|]; intros _; discriminate. Qed.

Lemma plan_rounds_shape (llm : LLM) (steps : list Step) (em : list ModelMessage) :
  List.length (plan_rounds llm steps em) = List.length steps /\
  Forall (fun rs => rs <> []) (plan_rounds llm steps em).
Proof.
  revert em; induction steps as [|s steps IH]; intros em; [simpl; auto|].
  cbn [plan_rounds List.length]; destruct (IH (em ++ response_messages (step_rounds llm s em))) as [H1 H2].
  split; [rewrite H1; reflexivity|].
  constructor; [|exact H2].
  apply generate_rounds_nonempty; discriminate.
Qed.

(** C3 (counterexample): the counting step answers with three messages
    (its tool call, the tool result and its closing answer); the synthesis
    call receives the conversation plus only the closing answer, not all
    three step messages. *)
Lemma C3_counterexample :
  synthesis_inputs (run counting_llm chat)
    = [chat ++ [mkMsg assistant "The dataset has 3 rows."]] /\
  chat ++ [mkMsg assistant "The dataset has 3 rows."]
    <> chat ++ [mkMsg assistant "queryDataset call"; mkMsg tool "count: 3";
                mkMsg assistant "The dataset has 3 rows."].
Proof.
  split; [vm_compute; reflexivity|].
  intros H; apply app_inv_head in H; discriminate H.
Qed.

(** C3 (amended): on the planned path the final event is the one
    synthesis call, and it receives the original messages followed, step
    by step in plan order, by the last assistant message of that step's
    response (when there is one); the full response messages of each step
    only reach later steps, as text in their request. *)
Theorem C3_synthesis_conversation (llm : LLM) (msgs : list ModelMessage) (reasoning : string)
    (steps : list Step)
    (Hd : decide llm msgs = (true, reasoning)) (Hp : plan llm msgs = steps)
    (Hne : steps <> []) :
  exists pre,
    run llm msgs =
      pre ++ [Synthesis NON_REASONING_MODEL
                (msgs ++ flat_map (fun rs => opt_list (findLast_assistant (response_messages rs)))
                           (plan_rounds llm steps []))] /\
    synthesis_inputs pre = [].
Proof.
  destruct steps as [|s ss]; [contradiction|].
  destruct (run_planned llm msgs reasoning s ss Hd Hp)
    as [pre [evs [Hrun [_ [_ [Hs1 [_ [_ Hs2]]]]]]]].
  exists (pre ++ evs); rewrite Hrun, <- app_assoc; split; [reflexivity|].
  rewrite synthesis_inputs_app, Hs1, Hs2; reflexivity.
Qed.

Lemma C3_synthesis_conversation_witness :
  exists pre,
    run counting_llm chat =
      pre ++ [Synthesis NON_REASONING_MODEL
                (chat ++ flat_map (fun rs => opt_list (findLast_assistant (response_messages rs)))
                           (plan_rounds counting_llm [count_step] []))] /\
    synthesis_inputs pre = [].
Proof.
  apply (C3_synthesis_conversation counting_llm chat "needs data" [count_step]);
    [reflexivity | reflexivity | discriminate].
Defined.

(** C7: when planning is required and the plan stream yields no step, the
    invocation ends with exactly one response path, a direct answer by the
    reasoning model with the full tool set; no step runs and no synthesis
    call is made. *)
Theorem C7_empty_plan_direct_response (llm : LLM) (msgs : list ModelMessage)
    (reasoning : string)
    (Hd : decide llm msgs = (true, reasoning)) (Hp : plan llm msgs = []) :
  run llm msgs =
    [ReasoningStart (uuid llm 0); DecisionCall msgs; ReasoningDelta (uuid llm 0) reasoning;
     ReasoningEnd (uuid llm 0); PlanCall msgs; PlanUpdate (uuid llm 1) [];
     DirectResponse REASONING_MODEL msgs availableTools] /\
  response_paths (run llm msgs) = [DirectResponse REASONING_MODEL msgs availableTools] /\
  project (run llm msgs) = [] /\
  synthesis_inputs (run llm msgs) = [].
Proof.
  assert (H : run llm msgs =
    [ReasoningStart (uuid llm 0); DecisionCall msgs; ReasoningDelta (uuid llm 0) reasoning;
     ReasoningEnd (uuid llm 0); PlanCall msgs; PlanUpdate (uuid llm 1) [];
     DirectResponse REASONING_MODEL msgs availableTools]).
  { unfold run, streamAgent; rewrite Hd, Hp; reflexivity. }
  rewrite H; repeat split.
Qed.

Lemma C7_empty_plan_direct_response_witness :
  response_paths (run empty_plan_llm chat)
    = [DirectResponse REASONING_MODEL chat availableTools] /\
  project (run empty_plan_llm chat) = [].
Proof.
  destruct (C7_empty_plan_direct_response empty_plan_llm chat "needs data" eq_refl eq_refl)
    as [_ [H1 [H2 _]]].
  split; [exact H1 | exact H2].
Defined.

(** C8: on the planned path with a non-empty plan, the step events are,
    step after step in plan order: the step's [completed:false] status,
    the step's own model rounds (at least one), then its [completed:true]
    status; every step of the plan appears. *)
Theorem C8_steps_in_order (llm : LLM) (msgs : list ModelMessage) (reasoning : string)
    (steps : list Step)
    (Hd : decide llm msgs = (true, reasoning)) (Hp : plan llm msgs = steps)
    (Hne : steps <> []) :
  project (run llm msgs) = expected_obs steps (plan_rounds llm steps []) /\
  List.length (plan_rounds llm steps []) = List.length steps /\
  Forall (fun rs => rs <> []) (plan_rounds llm steps []).
Proof.
  destruct steps as [|s ss]; [contradiction|].
  destruct (run_planned llm msgs reasoning s ss Hd Hp)
    as [pre [evs [Hrun [Hp1 [_ [_ [Hp2 _]]]]]]].
  split; [|apply plan_rounds_shape].
  rewrite Hrun, !project_app, Hp1, Hp2; cbn; rewrite app_nil_r; reflexivity.
Qed.

Lemma C8_steps_in_order_witness :
  project (run counting_llm chat)
    = expected_obs [count_step] (plan_rounds counting_llm [count_step] []).
Proof.
  apply (C8_steps_in_order counting_llm chat "needs data" [count_step]);
    [reflexivity | reflexivity | discriminate].
Defined.

(** C9 (counterexample): a step scoped to the bar chart alone whose chart
    calls fail keeps the tool choice [required] in all three rounds. *)
Lemma C9_counterexample :
  single_visualization (tools chart_step) = true /\
  map fst (step_rounds failing_chart_llm chart_step []) = [required; required; required].
Proof. split; vm_compute; reflexivity. Qed.

(** C9 (amended): in every round of a step, the tool choice is [required]
    when the step's declared tools are exactly one visualization tool and no
    earlier round of the step returned a successful chart, and [auto]
    otherwise. *)
Theorem C9_tool_choice_per_round (llm : LLM) (step : Step)
    (executionMessages : list ModelMessage) (i : nat) (c : ToolChoice) (r : RoundResult)
    (Hi : nth_error (step_rounds llm step executionMessages) i = Some (c, r)) :
  c = if single_visualization (tools step)
           && negb (chart_succeeded (firstn i (map snd (step_rounds llm step executionMessages))))
      then required else auto.
Proof.
  unfold step_rounds, generateText in *.
  apply generate_rounds_choice in Hi; rewrite Hi; cbn [app].
  unfold prepareStep; fold (chart_succeeded
    (firstn i (map snd (generate_rounds llm (step_request step executionMessages)
                          (resolve_tools (tools step)) (initial_tool_choice step) 3 [])))).
  destruct (chart_succeeded _); unfold initial_tool_choice, single_visualization;
    destruct (tools step) as [|t [|t' ts]]; try reflexivity;
    destruct (is_visualization t); reflexivity.
Qed.

Lemma C9_tool_choice_per_round_witness :
  nth_error (step_rounds failing_chart_llm chart_step []) 1
    = Some (required, failing_chart_round) /\
  required = if single_visualization (tools chart_step)
                && negb (chart_succeeded (firstn 1 (map snd (step_rounds failing_chart_llm chart_step []))))
             then required else auto.
Proof.
  assert (H : nth_error (step_rounds failing_chart_llm chart_step []) 1
              = Some (required, failing_chart_round)) by (vm_compute; reflexivity).
  split; [exact H | exact (C9_tool_choice_per_round failing_chart_llm chart_step [] 1 _ _ H)].
Defined.

End AgentClaims.

Module GuardExtraFacts.
Import Guard QueryTool GuardFacts Strings.

Lemma string_app_assoc (a b c : string) : ((a ++ b) ++ c)%string = (a ++ (b ++ c))%string.
Proof. induction a; simpl; congruence. Qed.

Lemma string_app_nil_r (a : string) : (a ++ EmptyString)%string = a.
Proof. induction a; simpl; congruence. Qed.

Lemma array_includes_In (xs : list string) (x : string) :
  array_includes xs x = true <-> In x xs.
Proof.
  unfold array_includes; rewrite existsb_exists; split.
  - intros [y [Hy Heq]]; apply String.eqb_eq in Heq; subst; exact Hy.
  - intros Hx; exists x; split; [exact Hx | apply String.eqb_refl].
Qed.

Lemma first_denied_none (ids allowed : list string) :
  first_denied ids allowed = None <-> Forall (fun x => In x allowed) ids.
Proof.
  induction ids as [|y ids IH]; simpl; [split; auto|].
  destruct (array_includes allowed y) eqn:E.
  - rewrite IH; apply array_includes_In in E; split.
    + intros H; constructor; auto.
    + intros H; inversion H; auto.
  - split; [discriminate|].
    intros H; inversion H as [|? ? Hy]; subst.
    apply array_includes_In in Hy; congruence.
Qed.

(** Each piece of the pattern consumes a prefix of the text. *)

Lemma prefix_ci_suffix (p s r : string) :
  prefix_ci p s = Some r -> exists w, s = (w ++ r)%string.
Proof.
  revert s; induction p as [|a p IH]; intros s H; simpl in H.
  - injection H as <-; exists EmptyString; reflexivity.
  - destruct s as [|b s]; [discriminate|].
    destruct (ci_eq b a); [|discriminate].
    destruct (IH s H) as [w ->]; exists (String b w); reflexivity.
Qed.

Lemma skip_ws_suffix (s : string) : exists w, s = (w ++ skip_ws s)%string.
Proof.
  induction s as [|c s [w Hw]]; simpl; [exists EmptyString; reflexivity|].
  destruct (is_space c); [exists (String c w); simpl; congruence | exists EmptyString; reflexivity].
Qed.

Lemma eq_or_in_suffix (s r : string) : eq_or_in s = Some r -> exists w, s = (w ++ r)%string.
Proof.
  destruct s as [|c s]; unfold eq_or_in; [discriminate|].
  destruct (Ascii.eqb c "="%char).
  - intros [= <-]; exists (String c EmptyString); reflexivity.
  - apply prefix_ci_suffix.
Qed.

Lemma opt_char_suffix (p : ascii) (s : string) : exists w, s = (w ++ opt_char p s)%string.
Proof.
  destruct s as [|c s]; simpl; [exists EmptyString; reflexivity|].
  destruct (Ascii.eqb c p); [exists (String c EmptyString) | exists EmptyString]; reflexivity.
Qed.

Lemma quote_spec (s r : string) :
  quote s = Some r -> exists a, s = String a r /\ is_quote a = true.
Proof.
  destruct s as [|c s]; simpl; [discriminate|].
  destruct (is_quote c) eqn:E; [intros [= <-]; eauto | discriminate].
Qed.

Lemma take_id_spec (s x t : string) :
  take_id s = (x, t) -> s = (x ++ t)%string /\ all_chars is_id_char x.
Proof.
  revert x t; induction s as [|c s IH]; intros x t H; simpl in H.
  - injection H as <- <-; split; [reflexivity | constructor].
  - destruct (is_id_char c) eqn:E.
    + destruct (take_id s) as [r u] eqn:Ht; injection H as <- <-.
      destruct (IH r u eq_refl) as [-> Hr]; split; [reflexivity|].
      constructor; assumption.
    + injection H as <- <-; split; [reflexivity | constructor].
Qed.

(** A match at the start of [s]: the captured id sits between two quote
    characters, and the scan resumes inside what follows them. *)
Lemma id_match_at_spec (s x rest : string) :
  id_match_at s = Some (x, rest) ->
  exists pre a b w,
    s = (pre ++ String a (x ++ String b (w ++ rest)))%string /\
    is_quote a = true /\ is_quote b = true /\
    x <> EmptyString /\ all_chars is_id_char x.
Proof.
  unfold id_match_at.
  destruct (prefix_ci "dataset_id" s) as [s1|] eqn:E1; [|discriminate].
  destruct (eq_or_in (skip_ws s1)) as [s2|] eqn:E2; [|discriminate].
  destruct (quote (opt_char "("%char (skip_ws s2))) as [s3|] eqn:E3; [|discriminate].
  destruct (take_id s3) as [id s4] eqn:E4.
  destruct (take_id_spec _ _ _ E4) as [Hs3 Hid].
  destruct id as [|c id']; [discriminate|].
  destruct (quote s4) as [s5|] eqn:E5; [|discriminate].
  intros [= <- <-].
  destruct (prefix_ci_suffix _ _ _ E1) as [w1 Hw1].
  destruct (skip_ws_suffix s1) as [w2 Hw2].
  destruct (eq_or_in_suffix _ _ E2) as [w3 Hw3].
  destruct (skip_ws_suffix s2) as [w4 Hw4].
  destruct (opt_char_suffix "("%char (skip_ws s2)) as [w5 Hw5].
  destruct (quote_spec _ _ E3) as [a [Ha Hqa]].
  destruct (quote_spec _ _ E5) as [b [Hb Hqb]].
  destruct (opt_char_suffix ")"%char s5) as [w6 Hw6].
  exists (w1 ++ w2 ++ w3 ++ w4 ++ w5)%string, a, b, w6.
  split; [|repeat split; auto; discriminate].
  rewrite Hw1, Hw2, Hw3, Hw4, Hw5, Ha, Hs3, Hb, <- Hw6.
  rewrite !string_app_assoc; reflexivity.
Qed.

Lemma matchAll_ids_fuel_spec (fuel : nat) (s x : string) :
  In x (matchAll_ids_fuel fuel s) ->
  exists pre a b post,
    s = (pre ++ String a (x ++ String b post))%string /\
    is_quote a = true /\ is_quote b = true /\
    x <> EmptyString /\ all_chars is_id_char x.
Proof.
  revert s; induction fuel as [|fuel IH]; intros s H; simpl in H; [contradiction|].
  destruct (id_match_at s) as [[y rest]|] eqn:E.
  - destruct (id_match_at_spec _ _ _ E) as [pre [a [b [w [Hs [Ha [Hb [Hne Hid]]]]]]]].
    destruct H as [<- | H].
    + exists pre, a, b, (w ++ rest)%string; auto.
    + destruct (IH rest H) as [pre' [a' [b' [post' [Hr Hrest]]]]].
      exists (pre ++ String a (y ++ String b (w ++ pre')))%string, a', b', post'.
      split; [|exact Hrest].
      rewrite Hs, Hr; repeat progress (rewrite ?string_app_assoc; cbn [append]); reflexivity.
  - destruct s as [|c s]; [contradiction|].
    destruct (IH s H) as [pre [a [b [post [Hs Hrest]]]]].
    exists (String c pre), a, b, post; rewrite Hs; auto.
Qed.

(** The guard's verdict, check by check. *)
Lemma approval_spec (query : string) (allowedDatasetIds : list string) :
  (valid (validateSQLQuery query allowedDatasetIds) = true <->
   startsWith (toLowerCase (trim query)) "select" = true /\
   (forall kw, In kw dangerousKeywords -> ~ whole_word kw query) /\
   includes (toLowerCase (trim query)) "dataset_rows" = true /\
   matchAll_ids query <> [] /\
   Forall (fun x => In x allowedDatasetIds) (matchAll_ids query)) /\
  (error (validateSQLQuery query allowedDatasetIds) = None <->
   valid (validateSQLQuery query allowedDatasetIds) = true).
Proof.
  assert (Hkw : first_keyword dangerousKeywords query = None <->
                (forall kw, In kw dangerousKeywords -> ~ whole_word kw query)).
  { rewrite first_keyword_none; split; intros H kw Hin.
    - destruct (dangerousKeywords_lower kw Hin) as [Hl Hne].
      rewrite <- (kw_test_whole_word kw query Hl Hne), (H kw Hin); discriminate.
    - destruct (dangerousKeywords_lower kw Hin) as [Hl Hne].
      destruct (kw_test kw query) eqn:E; [|reflexivity].
      exfalso; apply (H kw Hin), (kw_test_whole_word kw query Hl Hne), E. }
  rewrite validate_unfold; split.
  - destruct (startsWith _ "select") eqn:Hs; cbn [negb];
      [|split; [discriminate | intros [H _]; discriminate H]].
    destruct (first_keyword dangerousKeywords query) as [k|] eqn:Ek.
    + split; [discriminate|]; intros [_ [H _]]; apply Hkw in H; discriminate H.
    + destruct (includes _ "dataset_rows") eqn:Ht; cbn [negb];
        [|split; [discriminate | intros [_ [_ [H _]]]; discriminate H]].
      destruct (matchAll_ids query) as [|m ms] eqn:Em.
      * split; [discriminate | intros [_ [_ [_ [H _]]]]; congruence].
      * destruct (first_denied (m :: ms) allowedDatasetIds) as [d|] eqn:Ed.
        -- split; [discriminate|]; intros [_ [_ [_ [_ H]]]].
           apply first_denied_none in H; congruence.
        -- split; [intros _|reflexivity].
           repeat split; [apply Hkw; reflexivity | discriminate | apply first_denied_none; exact Ed].
  - destruct (negb _); [split; discriminate|].
    destruct (first_keyword _ _); [split; discriminate|].
    destruct (negb _); [split; discriminate|].
    destruct (matchAll_ids query); [split; discriminate|].
    destruct (first_denied _ _); split; (reflexivity || discriminate).
Qed.

End GuardExtraFacts.

Module GuardExtras.
Import Guard QueryTool GuardFacts GuardExtraFacts Strings.

(** Approval: the guard approves a query exactly when the trimmed,
    lower-cased query starts with [select], no listed keyword occurs in it
    as a whole word, the trimmed, lower-cased query contains [dataset_rows],
    the scope-filter pattern extracts at least one id, and every extracted
    id is in the scope; the verdict carries an error message exactly when
    it is a rejection. *)
Theorem validate_approves_iff (query : string) (allowedDatasetIds : list string) :
  (valid (validateSQLQuery query allowedDatasetIds) = true <->
   startsWith (toLowerCase (trim query)) "select" = true /\
   (forall kw, In kw dangerousKeywords -> ~ whole_word kw query) /\
   includes (toLowerCase (trim query)) "dataset_rows" = true /\
   matchAll_ids query <> [] /\
   Forall (fun x => In x allowedDatasetIds) (matchAll_ids query)) /\
  (error (validateSQLQuery query allowedDatasetIds) = None <->
   valid (validateSQLQuery query allowedDatasetIds) = true).
Proof. exact (approval_spec query allowedDatasetIds). Qed.

(** Widening the scope never turns an approval into a rejection: a query
    approved under a scope is approved under every scope that contains it
    (in particular the verdict does not depend on the order or repetitions
    of the ids). *)
Theorem validate_scope_monotone (query : string) (allowed allowed' : list string)
    (Hincl : forall x, In x allowed -> In x allowed')
    (Hok : valid (validateSQLQuery query allowed) = true) :
  valid (validateSQLQuery query allowed') = true.
Proof.
  apply (proj1 (approval_spec _ _)) in Hok as [H1 [H2 [H3 [H4 H5]]]].
  apply (proj1 (approval_spec _ _)); repeat split; auto.
  eapply Forall_impl; [|exact H5]; auto.
Qed.

Lemma validate_scope_monotone_witness :
  valid (validateSQLQuery "SELECT * FROM dataset_rows WHERE dataset_id = 'a1'" ["b2"; "a1"; "b2"]) = true.
Proof.
  apply (validate_scope_monotone _ ["a1"] ["b2"; "a1"; "b2"]).
  - simpl; tauto.
  - vm_compute; reflexivity.
Defined.

(** What the scope filter extracts: every id [matchAll] returns is a
    non-empty run of [[a-fA-F0-9-]] characters that occurs in the query
    between two quote characters (each a single or a double quote). *)
Theorem matchAll_ids_quoted (query x : string) (Hx : In x (matchAll_ids query)) :
  exists pre a b post,
    query = (pre ++ String a (x ++ String b post))%string /\
    is_quote a = true /\ is_quote b = true /\
    x <> EmptyString /\ all_chars is_id_char x.
Proof. exact (matchAll_ids_fuel_spec _ _ _ Hx). Qed.

Lemma matchAll_ids_quoted_witness :
  exists pre a b post,
    "SELECT * FROM dataset_rows WHERE dataset_id = 'a1'"
      = (pre ++ String a ("a1" ++ String b post))%string /\
    is_quote a = true /\ is_quote b = true /\
    "a1" <> EmptyString /\ all_chars is_id_char "a1".
Proof.
  apply matchAll_ids_quoted; vm_compute; left; reflexivity.
Defined.

End GuardExtras.

Module ToolExtraFacts.
Import Guard QueryTool GuardFacts GuardExtraFacts.

Lemma includes_app_r (a b p : string) : includes b p = true -> includes (a ++ b) p = true.
Proof.
  induction a as [|c a IH]; simpl; [auto|].
  intros H; rewrite (IH H), orb_true_r; reflexivity.
Qed.

Lemma capped_shape (sqlQuery : string) :
  (capped sqlQuery = sqlQuery \/ capped sqlQuery = (sqlQuery ++ " LIMIT 1000")%string) /\
  includes (toLowerCase (capped sqlQuery)) "limit" = true.
Proof.
  unfold capped; destruct (includes (toLowerCase sqlQuery) "limit") eqn:E.
  - split; [left; reflexivity | exact E].
  - split; [right; reflexivity|].
    rewrite toLowerCase_app; apply includes_app_r; reflexivity.
Qed.

End ToolExtraFacts.

Module ToolExtras.
Import Guard QueryTool GuardFacts GuardExtraFacts ToolExtraFacts.

(** What reaches the store: one call of the query tool sends at most one
    statement; it sends one exactly when the guard approves the query, and
    that statement is the query itself or the query followed by
    [ LIMIT 1000], whose lower-cased text always contains [limit]. *)
Theorem execute_store_statement (Row : Type) (db : string -> DbOutcome Row)
    (allowedDatasetIds : list string) (sqlQuery : string) :
  (valid (validateSQLQuery sqlQuery allowedDatasetIds) = false /\
   fst (execute Row db allowedDatasetIds sqlQuery) = []) \/
  (valid (validateSQLQuery sqlQuery allowedDatasetIds) = true /\
   exists stmt, fst (execute Row db allowedDatasetIds sqlQuery) = [stmt] /\
     (stmt = sqlQuery \/ stmt = (sqlQuery ++ " LIMIT 1000")%string) /\
     includes (toLowerCase stmt) "limit" = true).
Proof.
  destruct (valid (validateSQLQuery sqlQuery allowedDatasetIds)) eqn:Hv.
  - right; split; [reflexivity|].
    exists (capped sqlQuery); split; [apply execute_valid; exact Hv | apply capped_shape].
  - left; split; [reflexivity|]; rewrite execute_invalid; auto.
Qed.

(** The payload the model receives: a failure always carries an error
    text (the guard's message, the thrown error's message, or
    [Unknown error] when the thrown value is not an [Error]); a success
    only follows an approval, its [rowCount] is the number of rows the
    store returned for the sent statement, and its message reports that
    number. *)
Theorem execute_payload (Row : Type) (db : string -> DbOutcome Row)
    (allowedDatasetIds : list string) (sqlQuery : string) :
  match snd (execute Row db allowedDatasetIds sqlQuery) with
  | Failure _ e =>
      e = error (validateSQLQuery sqlQuery allowedDatasetIds) /\
        valid (validateSQLQuery sqlQuery allowedDatasetIds) = false /\ e <> None \/
      valid (validateSQLQuery sqlQuery allowedDatasetIds) = true /\
        ((exists m, db (capped sqlQuery) = DbThrows Row (Some m) /\ e = Some m) \/
         (db (capped sqlQuery) = DbThrows Row None /\ e = Some "Unknown error"))
  | Success _ n rows message =>
      valid (validateSQLQuery sqlQuery allowedDatasetIds) = true /\
      db (capped sqlQuery) = DbRows Row rows /\ n = List.length rows /\
      message = ("Successfully executed SQL query and returned " ++ nat_to_string n ++ " rows.")%string
  end.
Proof.
  destruct (valid (validateSQLQuery sqlQuery allowedDatasetIds)) eqn:Hv.
  - unfold execute; rewrite Hv; cbn [negb].
    destruct (db (capped sqlQuery)) as [rows|[m|]] eqn:Hdb; cbn [snd].
    + auto.
    + right; split; [reflexivity | left; eauto].
    + right; split; [reflexivity | right; auto].
  - rewrite execute_invalid by exact Hv; cbn [snd]; left; repeat split; auto.
    intros He; apply (proj2 (approval_spec sqlQuery allowedDatasetIds)) in He.
    congruence.
Qed.

(** The agent's query tool ([createQueryDatasetTool] built from the
    selected datasets): when it sends a statement to the store, the scope
    filter extracted at least one dataset id from the query, and each one
    is the id of a dataset the user selected. *)
Theorem agent_query_scoped (Row : Type) (db : string -> DbOutcome Row)
    (selectedDatasets : list Datasets.Dataset) (sqlQuery stmt : string)
    (Hsent : In stmt (fst (execute Row db (Datasets.allowedDatasetIds selectedDatasets) sqlQuery))) :
  matchAll_ids sqlQuery <> [] /\
  Forall (fun x => exists d, In d selectedDatasets /\ Datasets.id d = x) (matchAll_ids sqlQuery).
Proof.
  destruct (valid (validateSQLQuery sqlQuery (Datasets.allowedDatasetIds selectedDatasets))) eqn:Hv.
  - apply (proj1 (proj1 (approval_spec _ _))) in Hv as [_ [_ [_ [Hne Hall]]]].
    split; [exact Hne|].
    eapply Forall_impl; [|exact Hall].
    intros x Hx; unfold Datasets.allowedDatasetIds in Hx.
    apply in_map_iff in Hx as [d [Hd Hin]]; eauto.
  - rewrite execute_invalid in Hsent by exact Hv; contradiction.
Qed.

Lemma agent_query_scoped_witness :
  matchAll_ids "SELECT * FROM dataset_rows WHERE dataset_id = 'a1'" <> [] /\
  Forall (fun x => exists d, In d [Datasets.mkDataset "a1" "sales.csv"] /\ Datasets.id d = x)
    (matchAll_ids "SELECT * FROM dataset_rows WHERE dataset_id = 'a1'").
Proof.
  apply (agent_query_scoped unit (fun _ => DbRows unit []) [Datasets.mkDataset "a1" "sales.csv"]
           "SELECT * FROM dataset_rows WHERE dataset_id = 'a1'"
           "SELECT * FROM dataset_rows WHERE dataset_id = 'a1' LIMIT 1000").
  vm_compute; left; reflexivity.
Defined.

End ToolExtras.

Module ChartExtras.
Import Agent ChartTools AgentClaims Scenarios ExtraScenarios.

Lemma nth_error_firstn_in {A} (l : list A) (i j : nat) (x : A) :
  nth_error l i = Some x -> i < j -> In x (firstn j l).
Proof.
  intros H Hij; apply nth_error_In with (n := i).
  rewrite nth_error_firstn; destruct (Nat.ltb_spec i j); [exact H | lia].
Qed.

(** A displayed chart ends forced tool use: once a round of a plan step
    has the result of a chart tool's execution among its tool results,
    every later round of that step runs with the tool choice [auto]. *)
Theorem chart_result_then_auto (Datum : Type) (llm : LLM) (step : Step)
    (executionMessages : list ModelMessage) (kind : ChartType) (data : list Datum)
    (config : ChartConfig) (i j : nat) (ci c : ToolChoice) (ri r : RoundResult)
    (Hi : nth_error (step_rounds llm step executionMessages) i = Some (ci, ri))
    (Hres : In (mkToolResult (chart_tool kind) (snd (chart_execute Datum kind data config)))
              (toolResults ri))
    (Hij : i < j)
    (Hj : nth_error (step_rounds llm step executionMessages) j = Some (c, r)) :
  c = auto.
Proof.
  unfold step_rounds, generateText in *.
  apply generate_rounds_choice in Hj; rewrite Hj; cbn [app].
  assert (Hin : In ri (firstn j (map snd (generate_rounds llm (step_request step executionMessages)
                    (resolve_tools (tools step)) (initial_tool_choice step) 3 [])))).
  { apply nth_error_firstn_in with (i := i); [|exact Hij].
    rewrite nth_error_map, Hi; reflexivity. }
  unfold prepareStep.
  replace (existsb _ _) with true; [reflexivity|].
  symmetry; apply existsb_exists; exists ri; split; [exact Hin|].
  apply existsb_exists; eexists; split; [exact Hres|].
  destruct kind; reflexivity.
Qed.

Lemma chart_result_then_auto_witness :
  nth_error (step_rounds charting_llm chart_step []) 0
    = Some (required, mkRound 1 [mkToolResult displayBarChart chart_success] 0
                        [mkMsg assistant "displayBarChart call"; mkMsg tool chart_success]) /\
  nth_error (step_rounds charting_llm chart_step []) 1
    = Some (auto, mkRound 0 [] 0 [mkMsg assistant "Here is the chart."]) /\
  auto = auto.
Proof.
  split; [vm_compute; reflexivity|]; split; [vm_compute; reflexivity|].
  apply (chart_result_then_auto unit charting_llm chart_step [] bar [] sales_chart 0 1
           required auto (mkRound 1 [mkToolResult displayBarChart chart_success] 0
                            [mkMsg assistant "displayBarChart call"; mkMsg tool chart_success])
           (mkRound 0 [] 0 [mkMsg assistant "Here is the chart."])).
  - vm_compute; reflexivity.
  - left; reflexivity.
  - lia.
  - vm_compute; reflexivity.
Defined.

End ChartExtras.

Module RunCodeExtras.
Import RunCode.

Ltac prefix_at k :=
  exists k; split; [reflexivity | cbn -[app]; intros Hk; first [lia | do 2 eexists; reflexivity]].

(** The output of [runCode] always ends with the line its [try] or its
    [catch] pushes last: [result: ] followed by the rendered result of the
    code, or [error: ] followed by the rendered error; the tool never
    throws. *)
Theorem runCode_last_line (matplotlib_src basic_src : string) (py : Pyodide)
    (python_code : string) :
  exists pre line,
    outputContent (runCode_execute matplotlib_src basic_src py python_code) = pre ++ [line] /\
    ((exists result, line = ("result: " ++ result)%string) \/
     (exists error, line = ("error: " ++ error)%string)).
Proof.
  unfold runCode_execute, runCode_body, pcatch, pbind, loadPyodide, loadPackagesFromImports.
  destruct (load_error py) as [e|]; [cbn -[app]; do 2 eexists; split; [reflexivity | eauto]|].
  destruct (import_error py python_code) as [e|];
    [cbn -[app]; do 2 eexists; split; [reflexivity | eauto]|].
  destruct (run_handlers matplotlib_src basic_src py (detectRequiredHandlers python_code) _)
    as [[[]|e] st1].
  - unfold runPythonAsync; destruct (run_result py _ _) as [r|e];
      cbn -[app]; do 2 eexists; (split; [reflexivity | eauto]).
  - cbn -[app]; do 2 eexists; split; [reflexivity | eauto].
Qed.

(** The Python snippets [runCode] runs, in order, are always a prefix of:
    the basic handler, then (only when the code contains [matplotlib] or
    [plt.]) the matplotlib handler and [setup_matplotlib_output()], then the
    code itself; when the run stops before the code, the output ends with an
    [error: ] line. *)
Theorem runCode_snippets (matplotlib_src basic_src : string) (py : Pyodide)
    (python_code : string)
    (Hm : truthy matplotlib_src = true) (Hb : truthy basic_src = true) :
  exists k,
    ran (runCode_execute matplotlib_src basic_src py python_code)
      = firstn k (planned_snippets matplotlib_src basic_src python_code) /\
    (k < List.length (planned_snippets matplotlib_src basic_src python_code) ->
     exists pre error,
       outputContent (runCode_execute matplotlib_src basic_src py python_code)
         = pre ++ [("error: " ++ error)%string]).
Proof.
  unfold runCode_execute, runCode_body, planned_snippets, detectRequiredHandlers.
  destruct (includes python_code "matplotlib" || includes python_code "plt.");
    unfold pcatch, pbind, loadPyodide, loadPackagesFromImports;
    destruct (load_error py); destruct (import_error py python_code);
    cbn [run_handlers app]; unfold OUTPUT_HANDLERS; cbn [String.eqb Ascii.eqb Bool.eqb andb];
    rewrite ?Hm, ?Hb; unfold pbind, pret, runPythonAsync; cbn [ran outputContent app];
    repeat match goal with
           | |- context [run_result py ?a ?b] => destruct (run_result py a b)
           end.
  all: first [ prefix_at 0 | prefix_at 1 | prefix_at 2 | prefix_at 3 | prefix_at 4 ].
Qed.

Lemma runCode_snippets_witness :
  exists k,
    ran (runCode_execute "plt.show = custom_show" "# Basic output capture setup"
           (mkPyodide None (fun _ => []) (fun _ => None) (fun _ _ => []) (fun _ _ => inr "PythonError"))
           "print(1)")
      = firstn k (planned_snippets "plt.show = custom_show" "# Basic output capture setup" "print(1)") /\
    (k < List.length (planned_snippets "plt.show = custom_show" "# Basic output capture setup" "print(1)") ->
     exists pre error,
       outputContent (runCode_execute "plt.show = custom_show" "# Basic output capture setup"
           (mkPyodide None (fun _ => []) (fun _ => None) (fun _ _ => []) (fun _ _ => inr "PythonError"))
           "print(1)")
         = pre ++ [("error: " ++ error)%string]).
Proof. apply runCode_snippets; reflexivity. Defined.

End RunCodeExtras.

Module AgentExtraFacts.
Import Agent AgentFacts AgentViews.

Lemma ToolName_eqb_iff (a b : ToolName) : ToolName_eqb a b = true <-> a = b.
Proof. destruct a, b; simpl; split; congruence. Qed.

Lemma existsb_ToolName (t : ToolName) (l : list ToolName) :
  existsb (ToolName_eqb t) l = true <-> In t l.
Proof.
  rewrite existsb_exists; split.
  - intros [x [Hx Heq]]; apply ToolName_eqb_iff in Heq; subst; exact Hx.
  - intros Ht; exists t; split; [exact Ht | apply ToolName_eqb_iff; reflexivity].
Qed.

Lemma in_availableTools (t : ToolName) : In t availableTools.
Proof. destruct t; simpl; tauto. Qed.

(** The [reduce] of [resolve_tools], from any accumulator. *)
Lemma resolve_fold (names acc : list ToolName) :
  NoDup acc ->
  let r := fold_left
    (fun acc toolName =>
       if existsb (ToolName_eqb toolName) availableTools then
         if existsb (ToolName_eqb toolName) acc then acc else acc ++ [toolName]
       else acc)
    names acc in
  NoDup r /\ (forall t, In t r <-> In t acc \/ In t names) /\
  (NoDup (acc ++ names) -> r = acc ++ names).
Proof.
  revert acc; induction names as [|x names IH]; intros acc Hacc; cbn [fold_left].
  - rewrite app_nil_r; split; [exact Hacc | split; [intros t; simpl; tauto | reflexivity]].
  - assert (Hav : existsb (ToolName_eqb x) availableTools = true)
      by (apply existsb_ToolName, in_availableTools).
    rewrite Hav.
    destruct (existsb (ToolName_eqb x) acc) eqn:Hx.
    + apply existsb_ToolName in Hx.
      destruct (IH acc Hacc) as [H1 [H2 H3]]; split; [exact H1|]; split.
      * intros t; rewrite H2; simpl; split; [tauto|].
        intros [H | [<- | H]]; auto.
      * intros Hnd; exfalso.
        apply (NoDup_remove_2 acc names x) in Hnd; apply Hnd, in_or_app; auto.
    + assert (Hacc' : NoDup (acc ++ [x])).
      { apply NoDup_app; [exact Hacc | repeat constructor; auto|].
        intros a Ha [-> | []].
        assert (existsb (ToolName_eqb a) acc = true) by (apply existsb_ToolName; exact Ha).
        congruence. }
      destruct (IH (acc ++ [x]) Hacc') as [H1 [H2 H3]]; split; [exact H1|]; split.
      * intros t; rewrite H2, in_app_iff; simpl; tauto.
      * intros Hnd; rewrite H3, <- app_assoc; [reflexivity|].
        rewrite <- app_assoc; exact Hnd.
Qed.

(** The stopping rule of [generateText]. *)
Lemma generate_rounds_stop (llm : LLM) (msgs : list ModelMessage) (ts : list ToolName)
    (tc : ToolChoice) (remaining : nat) (steps : list RoundResult) :
  let rs := generate_rounds llm msgs ts tc remaining steps in
  List.length rs <= remaining /\
  (remaining <> 0 -> 1 <= List.length rs) /\
  (forall i c r, nth_error rs i = Some (c, r) -> S i < List.length rs -> round_continues r = true) /\
  (forall c r, nth_error rs (pred (List.length rs)) = Some (c, r) ->
     List.length rs < remaining -> round_continues r = false).
Proof.
  revert steps; induction remaining as [|remaining IH]; intros steps; cbn [generate_rounds].
  - split; [reflexivity|]; split; [congruence|]; split.
    + intros i c r H; destruct i; discriminate.
    + intros c r H; discriminate.
  - set (c0 := match prepareStep steps with Some c' => c' | None => tc end).
    set (r0 := round llm msgs ts c0 steps).
    fold (round_continues r0).
    destruct (round_continues r0) eqn:Hc.
    + destruct (IH (steps ++ [r0])) as [H1 [H2 [H3 H4]]].
      set (rs := generate_rounds llm msgs ts tc remaining (steps ++ [r0])) in *.
      cbn [List.length]; split; [lia|]; split; [lia|]; split.
      * intros [|i] c r H Hi; cbn [nth_error] in H.
        -- injection H as <- <-; exact Hc.
        -- apply (H3 i c r H); cbn [List.length] in Hi; lia.
      * intros c r H Hlt.
        destruct rs as [|x rs'] eqn:Ers.
        -- cbn in H; injection H as <- <-.
           destruct remaining; [lia|].
           exfalso; specialize (H2 ltac:(discriminate)); cbn in H2; lia.
        -- cbn [List.length pred nth_error] in H; apply (H4 c r); [|cbn in Hlt |- *; lia].
           rewrite <- Ers in H |- *; rewrite Ers; cbn [List.length pred]; rewrite Ers in H.
           exact H.
    + cbn [List.length]; split; [lia|]; split; [lia|]; split.
      * intros i c r H Hi; lia.
      * intros c r H _; cbn in H; injection H as <- <-; exact Hc.
Qed.

Lemma generateText_length (llm : LLM) (msgs : list ModelMessage) (ts : list ToolName)
    (tc : ToolChoice) :
  1 <= List.length (generateText llm msgs ts tc) <= 3.
Proof.
  unfold generateText; destruct (generate_rounds_stop llm msgs ts tc 3 []) as [H1 [H2 _]].
  split; [apply H2; discriminate | exact H1].
Qed.

Lemma count_rounds_app (a b : list Event) : count_rounds (a ++ b) = count_rounds a + count_rounds b.
Proof. unfold count_rounds; rewrite filter_app, length_app; reflexivity. Qed.

Lemma status_events_app (a b : list Event) :
  status_events (a ++ b) = status_events a ++ status_events b.
Proof. unfold status_events; apply flat_map_app. Qed.

Lemma plan_part_ids_app (a b : list Event) :
  plan_part_ids (a ++ b) = plan_part_ids a ++ plan_part_ids b.
Proof. unfold plan_part_ids; apply flat_map_app. Qed.

Lemma round_events (msgs : list ModelMessage) (ts : list ToolName)
    (rounds : list (ToolChoice * RoundResult)) :
  let evs := map (fun cr => StepRound msgs ts (fst cr) (snd cr)) rounds in
  count_rounds evs = List.length rounds /\ status_events evs = [] /\
  plan_part_ids evs = [] /\ response_paths evs = [].
Proof.
  induction rounds as [|[c r] rounds IH]; [repeat split|].
  destruct IH as [H1 [H2 [H3 H4]]]; cbn in *.
  unfold count_rounds in *; cbn; rewrite H1; repeat split; assumption.
Qed.

(** The step loop, event by event. *)
Lemma execute_steps_events (llm : LLM) (planId : string) (steps : list Step)
    (modelMessages executionMessages : list ModelMessage) (n : nat) (ev : list Event) :
  exists res,
    execute_steps llm planId steps modelMessages executionMessages (mkSt n ev)
    = (res, mkSt (n + List.length steps) (ev ++ loop_events llm planId n steps executionMessages)).
Proof.
  revert modelMessages executionMessages n ev.
  induction steps as [|step steps IH]; intros mm em n ev.
  - eexists; cbn; rewrite Nat.add_0_r, app_nil_r; reflexivity.
  - cbn -[generateText step_request resolve_tools initial_tool_choice findLast_assistant
           response_messages emit_rounds loop_events].
    change (generateText llm (step_request step em) (resolve_tools (tools step))
              (initial_tool_choice step)) with (step_rounds llm step em).
    rewrite bind_run, emit_rounds_run; cbv beta iota.
    rewrite bind_run; unfold write; cbv beta iota; cbn [next_uuid events].
    match goal with
    | |- exists res, execute_steps llm planId steps ?mm' ?em' (mkSt (S n) ?ev') = _ =>
        destruct (IH mm' em' (S n) ev') as [res Hres]
    end.
    exists res; rewrite Hres; f_equal; f_equal; [lia|].
    cbn [loop_events]; rewrite <- !app_assoc; reflexivity.
Qed.

Lemma stream_plan_events (planId : string) (acc rest : list Step) (st : St) :
  exists evs,
    stream_plan planId acc rest st = (tt, mkSt (next_uuid st) (events st ++ evs)) /\
    plan_part_ids evs = repeat planId (List.length rest) /\ status_events evs = [] /\
    count_rounds evs = 0 /\ response_paths evs = [].
Proof.
  revert acc st; induction rest as [|s rest IH]; intros acc [n ev].
  - exists []; rewrite app_nil_r; repeat split.
  - cbn [stream_plan]; rewrite bind_run; unfold write; cbv beta iota; cbn [next_uuid events].
    destruct (IH (acc ++ [s]) (mkSt n (ev ++ [PlanUpdate planId (acc ++ [s])])))
      as [evs [Hrun [H1 [H2 [H3 H4]]]]].
    rewrite Hrun; cbn [next_uuid events].
    exists (PlanUpdate planId (acc ++ [s]) :: evs); rewrite <- app_assoc; split; [reflexivity|].
    change (PlanUpdate planId (acc ++ [s]) :: evs) with ([PlanUpdate planId (acc ++ [s])] ++ evs).
    rewrite plan_part_ids_app, status_events_app, count_rounds_app, response_paths_app,
      H1, H2, H3, H4; repeat split.
Qed.

(** Every invocation, branch by branch. *)
Lemma run_shape (llm : LLM) (msgs : list ModelMessage) :
  exists tail,
    run llm msgs =
      [ReasoningStart (uuid llm 0); DecisionCall msgs;
       ReasoningDelta (uuid llm 0) (snd (decide llm msgs)); ReasoningEnd (uuid llm 0)] ++ tail /\
    (fst (decide llm msgs) = false ->
       tail = [DirectResponse NON_REASONING_MODEL msgs availableTools]) /\
    (fst (decide llm msgs) = true ->
       exists evp,
         plan_part_ids evp = repeat (uuid llm 1) (List.length (plan llm msgs)) /\
         status_events evp = [] /\ count_rounds evp = 0 /\ response_paths evp = [] /\
         ((plan llm msgs = [] /\
           tail = [PlanCall msgs; PlanUpdate (uuid llm 1) []] ++ evp
                  ++ [DirectResponse REASONING_MODEL msgs availableTools]) \/
          (plan llm msgs <> [] /\
           exists final,
             tail = [PlanCall msgs; PlanUpdate (uuid llm 1) []] ++ evp
                    ++ loop_events llm (uuid llm 1) 2 (plan llm msgs) []
                    ++ [Synthesis NON_REASONING_MODEL final]))).
Proof.
  unfold run, streamAgent.
  destruct (decide llm msgs) as [[|] reasoning] eqn:Hd; cbn [fst snd].
  - cbn -[stream_plan execute_steps].
    set (st0 := mkSt 2 _).
    rewrite bind_run.
    destruct (stream_plan_events (uuid llm 1) [] (plan llm msgs) st0)
      as [evp [Hsp [H1 [H2 [H3 H4]]]]].
    rewrite Hsp; cbv beta iota.
    destruct (plan llm msgs) as [|s ss] eqn:Hp.
    + unfold write; cbn [events snd next_uuid].
      eexists; split; [|split; [discriminate|]].
      * unfold st0; cbn [events]; rewrite <- !app_assoc; reflexivity.
      * intros _; exists evp; split; [exact H1 | split; [exact H2 | split; [exact H3 | split; [exact H4|]]]].
        left; split; reflexivity.
    + rewrite bind_run.
      destruct (execute_steps_events llm (uuid llm 1) (s :: ss) msgs [] (next_uuid st0)
                  (events st0 ++ evp)) as [res Hex].
      rewrite Hex; cbv beta iota; unfold write; cbn [events snd].
      eexists; split; [|split; [discriminate|]].
      * unfold st0; cbn [events next_uuid]; rewrite <- !app_assoc; reflexivity.
      * intros _; exists evp; split; [exact H1 | split; [exact H2 | split; [exact H3 | split; [exact H4|]]]].
        right; split; [discriminate|]; eexists; unfold st0; cbn [next_uuid]; reflexivity.
  - cbn; eexists; split; [reflexivity|]; split; [reflexivity | discriminate].
Qed.

Lemma loop_events_facts (llm : LLM) (planId : string) (n : nat) (steps : list Step)
    (em : list ModelMessage) :
  let evs := loop_events llm planId n steps em in
  List.length steps <= count_rounds evs <= 3 * List.length steps /\
  status_events evs = expected_status llm planId n steps /\
  plan_part_ids evs = [] /\ response_paths evs = [].
Proof.
  revert n em; induction steps as [|s steps IH]; intros n em; [cbn; repeat split; lia|].
  cbn [loop_events].
  destruct (IH (S n) (em ++ response_messages (step_rounds llm s em))) as [[Hc1 Hc2] [H2 [H3 H4]]].
  destruct (round_events (step_request s em) (resolve_tools (tools s)) (step_rounds llm s em))
    as [R1 [R2 [R3 R4]]].
  pose proof (generateText_length llm (step_request s em) (resolve_tools (tools s))
                (initial_tool_choice s)) as Hl.
  change (generateText llm (step_request s em) (resolve_tools (tools s)) (initial_tool_choice s))
    with (step_rounds llm s em) in Hl.
  rewrite !count_rounds_app, !status_events_app, !plan_part_ids_app, !AgentFacts.response_paths_app.
  rewrite R1, R2, R3, R4, H2, H3, H4.
  cbn [count_rounds filter is_round List.length status_events flat_map response_paths
       is_response plan_part_ids app expected_status].
  repeat split; lia.
Qed.

End AgentExtraFacts.

Module AgentExtras.
Import Agent AgentFacts AgentViews AgentExtraFacts Scenarios ExtraScenarios.

(** A step's tool set: the tools handed to a step's model calls have no
    duplicates, are exactly the tools the step declares (every declared
    name is a key of [availableTools]), and are the declared list itself
    when it has no duplicates. *)
Theorem resolve_tools_dedup (names : list ToolName) :
  NoDup (resolve_tools names) /\
  (forall t, In t (resolve_tools names) <-> In t names) /\
  (NoDup names -> resolve_tools names = names).
Proof.
  destruct (resolve_fold names [] (NoDup_nil _)) as [H1 [H2 H3]].
  split; [exact H1|]; split.
  - intros t; rewrite H2; simpl; tauto.
  - exact H3.
Qed.

(** The rounds of one [generateText] call: at least one and at most three;
    every round but the last made at least one tool call and got an output
    (result or error) for each; and when fewer than three rounds were made,
    the last one made no tool call or lacks an output. *)
Theorem generateText_stops (llm : LLM) (msgs : list ModelMessage) (ts : list ToolName)
    (tc : ToolChoice) :
  let rs := generateText llm msgs ts tc in
  1 <= List.length rs <= 3 /\
  (forall i c r, nth_error rs i = Some (c, r) -> S i < List.length rs -> round_continues r = true) /\
  (forall c r, nth_error rs (pred (List.length rs)) = Some (c, r) ->
     List.length rs < 3 -> round_continues r = false).
Proof.
  unfold generateText; destruct (generate_rounds_stop llm msgs ts tc 3 []) as [H1 [H2 [H3 H4]]].
  split; [split; [apply H2; discriminate | exact H1]|]; split; assumption.
Qed.

(** A successful invocation (every model call returns; a rejected call
    throws out of [streamAgent] instead) ends with exactly one response
    path: its last event is a direct answer or the synthesis call, and no
    other event is one. *)
Theorem single_response_last (llm : LLM) (msgs : list ModelMessage) :
  exists pre e, run llm msgs = pre ++ [e] /\ is_response e = true /\ response_paths pre = [].
Proof.
  destruct (run_shape llm msgs) as [tail [Hrun [Hdir Hpl]]].
  rewrite Hrun.
  destruct (fst (decide llm msgs)).
  - destruct (Hpl eq_refl) as [evp [_ [_ [_ [Hr [[_ ->] | [_ [final ->]]]]]]]].
    + eexists _, _; split; [rewrite !app_assoc; reflexivity | split; [reflexivity|]].
      rewrite !response_paths_app, Hr; reflexivity.
    + destruct (loop_events_facts llm (uuid llm 1) 2 (plan llm msgs) []) as [_ [_ [_ L4]]].
      eexists _, _; split; [rewrite !app_assoc; reflexivity | split; [reflexivity|]].
      rewrite !response_paths_app, Hr, L4; reflexivity.
  - rewrite (Hdir eq_refl).
    exists [ReasoningStart (uuid llm 0); DecisionCall msgs;
            ReasoningDelta (uuid llm 0) (snd (decide llm msgs)); ReasoningEnd (uuid llm 0)].
    eexists; split; [reflexivity | split; reflexivity].
Qed.

(** A successful invocation (every model call returns) opens with its
    reasoning part: the [reasoning-start]
    part, the planning decision call on the conversation, one
    [reasoning-delta] carrying the decision's reasoning, and the
    [reasoning-end] part, all with the first [uuidv4()] value as id. *)
Theorem reasoning_first (llm : LLM) (msgs : list ModelMessage) :
  exists rest,
    run llm msgs =
      [ReasoningStart (uuid llm 0); DecisionCall msgs;
       ReasoningDelta (uuid llm 0) (snd (decide llm msgs)); ReasoningEnd (uuid llm 0)] ++ rest.
Proof. destruct (run_shape llm msgs) as [tail [Hrun _]]; eauto. Qed.

(** The direct path: when the decision says no planning is needed, the
    invocation is the reasoning part followed by one direct answer of the
    non-reasoning model on the conversation with all five tools; no plan is
    requested and no step runs. *)
Theorem direct_path (llm : LLM) (msgs : list ModelMessage)
    (Hd : fst (decide llm msgs) = false) :
  run llm msgs =
    [ReasoningStart (uuid llm 0); DecisionCall msgs;
     ReasoningDelta (uuid llm 0) (snd (decide llm msgs)); ReasoningEnd (uuid llm 0);
     DirectResponse NON_REASONING_MODEL msgs availableTools].
Proof.
  destruct (run_shape llm msgs) as [tail [Hrun [Hdir _]]].
  rewrite Hrun, (Hdir Hd); reflexivity.
Qed.

Lemma direct_path_witness :
  run direct_llm chat =
    [ReasoningStart (uuid direct_llm 0); DecisionCall chat;
     ReasoningDelta (uuid direct_llm 0) (snd (decide direct_llm chat)); ReasoningEnd (uuid direct_llm 0);
     DirectResponse NON_REASONING_MODEL chat availableTools].
Proof. apply direct_path; reflexivity. Defined.

(** Part ids on the planned path of a successful invocation (every model
    call returns): every plan part carries the second
    [uuidv4()] value as id (one part, then one more per streamed step), and
    the k-th step of the plan (from 0) has exactly two status parts, first
    [completed:false] then [completed:true], both with the (k+3)-th
    [uuidv4()] value as part id, the step's own id and the plan id. *)
Theorem planned_part_ids (llm : LLM) (msgs : list ModelMessage)
    (Hd : fst (decide llm msgs) = true) :
  plan_part_ids (run llm msgs) = repeat (uuid llm 1) (S (List.length (plan llm msgs))) /\
  status_events (run llm msgs) = expected_status llm (uuid llm 1) 2 (plan llm msgs).
Proof.
  destruct (run_shape llm msgs) as [tail [Hrun [_ Hpl]]].
  destruct (Hpl Hd) as [evp [P1 [P2 [_ [_ [[Hp ->] | [Hp [final ->]]]]]]]];
    rewrite Hrun, !plan_part_ids_app, !status_events_app, P1, P2.
  - rewrite Hp; split; reflexivity.
  - destruct (loop_events_facts llm (uuid llm 1) 2 (plan llm msgs) []) as [_ [L2 [L3 _]]].
    rewrite L2, L3; cbn; rewrite ?app_nil_r; split; reflexivity.
Qed.

Lemma planned_part_ids_witness :
  plan_part_ids (run counting_llm chat) = repeat (uuid counting_llm 1) 2 /\
  status_events (run counting_llm chat) = expected_status counting_llm (uuid counting_llm 1) 2 [count_step].
Proof. apply (planned_part_ids counting_llm chat); reflexivity. Defined.

End AgentExtras.
